(** * mlo/problem.py: problem data, solve / strategy pipeline and metrics

    A shallow embedding of [src/mlo/problem.py].  The Python code works on
    numpy arrays and scipy sparse matrices and signals failure by raising
    exceptions; here

    - floating point numbers are idealised as real numbers ([R]);
    - a numpy array of one or two dimensions is an [ndarray];
    - a scipy sparse matrix is an [spmatrix]: its storage format, its number
      of columns and its rows;
    - a computation that may raise is a value of [sum exn], the error monad
      of ExtLib, and the operations of numpy and scipy the module calls are
      written out with the exceptions they raise;
    - the solver adapter ([SOLVER_MAP[solver](settings)]), the constants
      [TOL] and [SOLUTION_PRESENT] and the cvxpy cross-check live outside
      the module and are section variables.
*)

From Stdlib Require Import String Reals Lra Lia ZArith Bool Arith List.
From ExtLib Require Import Structures.Monad Structures.MonadExc Data.Monads.EitherMonad.
Import ListNotations.
Import MonadNotation.
Local Open Scope monad_scope.
Local Open Scope R_scope.

(** ** Arrays and matrices *)

Definition vec := list R.

(** A numpy array with one axis, or with two (shape [(length rows, ncols)]). *)
Inductive ndarray :=
| Arr1 (v : vec)
| Arr2 (ncols : nat) (rows : list vec).

(** Storage formats of [scipy.sparse]; only the compressed ones implement
    [__getitem__]. *)
Inductive sp_format := csc | csr | coo | dia.

Record spmatrix := SpMatrix {
  sp_format_of : sp_format;
  sp_ncols : nat;
  sp_rows : list vec
}.

Definition subscriptable (f : sp_format) : bool :=
  match f with csc | csr => true | coo | dia => false end.

Definition is_csr (M : spmatrix) : bool :=
  match sp_format_of M with csr => true | _ => false end.

(** The rows of a matrix value all have the declared width. *)
Definition sp_wf (M : spmatrix) : Prop :=
  Forall (fun r => length r = sp_ncols M) (sp_rows M).

(** ** class ProblemData: the attributes *)

Module ProblemData.

Record t := Build {
  c : vec;
  l : ndarray;
  A : spmatrix;
  u : ndarray;
  int_idx : list Z
}.

End ProblemData.

(** ** Exceptions *)

Inductive exn_class :=
| ValueError | TypeError | IndexError | AttributeError | AssertionError.

(** What an exception object is constructed from. *)
Inductive pyobj :=
| PyStr (s : string)
| PyProblemData (d : ProblemData.t).

(** An exception: its class and its [args].  The errors numpy and scipy
    raise have their message left out ([args = []]). *)
Record exn := Exn {
  exn_cls : exn_class;
  exn_args : list pyobj
}.

Definition result := sum exn.

Definition throw {T : Type} (k : exn_class) : result T := inl (Exn k []).

(** ** class Strategy and the solver's results *)

Module Strategy.

Record t := Build {
  int_vars : vec;
  active_constraints : list Z
}.

End Strategy.

Module Results.

Record t := Build {
  status : string;
  x : vec;
  run_time : R;
  active_constraints : list Z
}.

End Results.

(** ** Comparisons of reals as booleans *)

Definition Rleb (a b : R) : bool := if Rle_dec a b then true else false.
Definition Rgeb (a b : R) : bool := if Rge_dec a b then true else false.
Definition Rneqb (a b : R) : bool := if Req_dec_T a b then false else true.

(** ** numpy *)

(** Python's index wrap-around on an axis of length [n]. *)
Definition norm_index (n : nat) (i : Z) : option nat :=
  if ((0 <=? i) && (i <? Z.of_nat n))%Z then Some (Z.to_nat i)
  else if ((- Z.of_nat n <=? i) && (i <? 0))%Z then Some (Z.to_nat (i + Z.of_nat n))
  else None.

(** [xs[idx]] for an integer index array on the first axis. *)
Fixpoint take {X : Type} (xs : list X) (idx : list Z) : result (list X) :=
  match idx with
  | [] => ret []
  | i :: rest =>
      match norm_index (length xs) i with
      | None => throw IndexError
      | Some k =>
          match nth_error xs k with
          | None => throw IndexError
          | Some a => r <- take xs rest ;; ret (a :: r)
          end
      end
  end.

(** [len(a)]. *)
Definition np_len (a : ndarray) : nat :=
  match a with
  | Arr1 v => length v
  | Arr2 _ rows => length rows
  end.

(** Broadcasting of one axis: equal lengths go elementwise, a length of one
    is stretched, anything else is a [ValueError]. *)
Fixpoint zip_with {X Y W : Type} (f : X -> Y -> result W) (a : list X) (b : list Y)
  : result (list W) :=
  match a, b with
  | p :: a', q :: b' => w <- f p q ;; r <- zip_with f a' b' ;; ret (w :: r)
  | _, _ => ret []
  end.

Fixpoint map_result {X W : Type} (f : X -> result W) (a : list X) : result (list W) :=
  match a with
  | [] => ret []
  | p :: a' => w <- f p ;; r <- map_result f a' ;; ret (w :: r)
  end.

Definition broadcast {X W : Type} (f : X -> X -> result W) (a b : list X)
  : result (list W) :=
  if (length a =? length b)%nat then zip_with f a b
  else match a, b with
       | [p], _ => map_result (f p) b
       | _, [q] => map_result (fun p => f p q) a
       | _, _ => throw ValueError
       end.

Definition broadcast_cols (k1 k2 : nat) : nat :=
  if (k1 =? 1)%nat then k2 else k1.

(** An elementwise binary operation on arrays of at most two axes. *)
Definition np_binop (op : R -> R -> R) (a b : ndarray) : result ndarray :=
  let f := fun p q => ret (op p q) in
  match a, b with
  | Arr1 v, Arr1 w => r <- broadcast f v w ;; ret (Arr1 r)
  | Arr1 v, Arr2 k rows =>
      r <- broadcast (broadcast f) [v] rows ;; ret (Arr2 (broadcast_cols (length v) k) r)
  | Arr2 k rows, Arr1 w =>
      r <- broadcast (broadcast f) rows [w] ;; ret (Arr2 (broadcast_cols k (length w)) r)
  | Arr2 k1 r1, Arr2 k2 r2 =>
      r <- broadcast (broadcast f) r1 r2 ;; ret (Arr2 (broadcast_cols k1 k2) r)
  end.

Definition np_sub := np_binop Rminus.

(** Positions of the [true] entries, counted from [i]. *)
Fixpoint where_from (i : nat) (bs : list bool) : list nat :=
  match bs with
  | [] => []
  | b :: rest => if b then i :: where_from (S i) rest else where_from (S i) rest
  end.

(** [np.where(cond)] for a one-axis [cond]: a 1-tuple holding the index array. *)
Definition np_where (bs : list bool) : list (list nat) := [where_from 0 bs].

(** [np.where(a)] for an array of reals: the positions of its nonzero
    entries, one index array per axis. *)
Definition np_where_nonzero (a : ndarray) : list (list nat) :=
  match a with
  | Arr1 v => np_where (map (fun r => Rneqb r 0) v)
  | Arr2 k rows =>
      let hits := concat (map (fun ir => map (fun j => (fst ir, j))
                                          (where_from 0 (map (fun r => Rneqb r 0) (snd ir))))
                              (combine (seq 0 (length rows)) rows)) in
      [map fst hits; map snd hits]
  end.

(** [np.concatenate((a, b))]: along the first axis; the number of axes and
    the other axis must agree. *)
Definition np_concatenate (a b : ndarray) : result ndarray :=
  match a, b with
  | Arr1 v, Arr1 w => ret (Arr1 (v ++ w))
  | Arr2 k1 r1, Arr2 k2 r2 =>
      if (k1 =? k2)%nat then ret (Arr2 k1 (r1 ++ r2)) else throw ValueError
  | _, _ => throw ValueError
  end.

(** [np.atleast_2d]: a one-axis array becomes a single row. *)
Definition atleast_2d (a : ndarray) : nat * list vec :=
  match a with
  | Arr1 v => (length v, [v])
  | Arr2 k rows => (k, rows)
  end.

(** [np.vstack(arrays)]: every array is made two-dimensional and the rows
    are stacked; the widths must all agree. *)
Fixpoint vstack_rows (k : nat) (arrays : list ndarray) : result (list vec) :=
  match arrays with
  | [] => ret []
  | a :: rest =>
      let '(ka, rows) := atleast_2d a in
      if (ka =? k)%nat then r <- vstack_rows k rest ;; ret (rows ++ r)
      else throw ValueError
  end.

Definition np_vstack (arrays : list ndarray) : result ndarray :=
  match arrays with
  | [] => throw ValueError
  | a :: _ => let k := fst (atleast_2d a) in r <- vstack_rows k arrays ;; ret (Arr2 k r)
  end.

(** [a[t]] where [t] is the 1-tuple [(idx,)] that [np.where] returned for
    a one-axis condition, which numpy reads as [a[idx]]: the entries
    (rows, for two axes) at those positions. *)
Definition np_getitem (a : ndarray) (idx : list nat) : result ndarray :=
  match a with
  | Arr1 v => r <- take v (map Z.of_nat idx) ;; ret (Arr1 r)
  | Arr2 k rows => r <- take rows (map Z.of_nat idx) ;; ret (Arr2 k r)
  end.

(** [a[t]] for a tuple [t] of index arrays, one per axis: none leaves the
    array as it is, one selects on the first axis, two pair up as (row,
    column) positions of a two-axis array (index arrays that do not
    broadcast are an [IndexError] here); more index arrays than axes are
    too many indices. *)
Definition np_getitem_where (a : ndarray) (t : list (list nat)) : result ndarray :=
  match t, a with
  | [], _ => ret a
  | [idx], _ => np_getitem a idx
  | [ri; ci], Arr2 k rows =>
      match broadcast (fun i j =>
                         match nth_error rows i with
                         | None => throw IndexError
                         | Some row =>
                             match nth_error row j with
                             | None => throw IndexError
                             | Some v => ret v
                             end
                         end) ri ci with
      | inl _ => throw IndexError
      | inr r => ret (Arr1 r)
      end
  | _, _ => throw IndexError
  end.

(** [np.max] and [np.min]: no identity on an empty array. *)
Definition np_max (v : vec) : result R :=
  match v with
  | [] => throw ValueError
  | a :: rest => ret (fold_left Rmax rest a)
  end.

Definition np_min (v : vec) : result R :=
  match v with
  | [] => throw ValueError
  | a :: rest => ret (fold_left Rmin rest a)
  end.

(** The inner product of two sequences of equal length. *)
Fixpoint dot (a b : vec) : R :=
  match a, b with
  | p :: a', q :: b' => p * q + dot a' b'
  | _, _ => 0
  end.

(** [a.dot(b)] on one-axis arrays: the lengths must agree. *)
Definition np_dot (a b : vec) : result R :=
  if (length a =? length b)%nat then ret (dot a b) else throw ValueError.

(** [np.linalg.norm(v)]: the Euclidean norm. *)
Definition np_linalg_norm (v : vec) : R := sqrt (dot v v).

(** [np.linalg.norm(v, np.inf)]: the largest absolute value. *)
Definition np_linalg_norm_inf (v : vec) : result R := np_max (map Rabs v).

(** ** scipy.sparse *)

(** Row [i] of the identity of order [n]. *)
Definition unit_row (n i : nat) : vec :=
  map (fun j => if (i =? j)%nat then 1 else 0) (seq 0 n).

(** [spa.eye(n, format=f)]; without a format scipy builds a DIA matrix. *)
Definition spa_eye (n : nat) (f : sp_format) : spmatrix :=
  SpMatrix f n (map (unit_row n) (seq 0 n)).

(** [spa.csc_matrix((0, n))]: no rows, [n] columns. *)
Definition spa_csc_matrix_empty (n : nat) : spmatrix := SpMatrix csc n [].

(** [M[idx, :]] for an integer index array: the selected rows, in the
    format of [M].  A format without [__getitem__] is not subscriptable. *)
Definition spa_getitem_rows (M : spmatrix) (idx : list Z) : result spmatrix :=
  if subscriptable (sp_format_of M) then
    r <- take (sp_rows M) idx ;; ret (SpMatrix (sp_format_of M) (sp_ncols M) r)
  else throw TypeError.

(** [M[t, :]] where [t] is the 1-tuple that [np.where] returned: scipy
    reads the tuple as an index array of two axes, and with the slice the
    result would have more than two, which it refuses.  A format without
    [__getitem__] is not subscriptable. *)
Definition spa_getitem_where_rows (M : spmatrix) (t : list (list nat))
  : result spmatrix :=
  if subscriptable (sp_format_of M) then throw IndexError else throw TypeError.

(** [M[idx, :]] for an index array of floats: arrays used as indices must be
    of integer type. *)
Definition spa_getitem_rows_float (M : spmatrix) (idx : vec) : result spmatrix :=
  if subscriptable (sp_format_of M) then throw IndexError else throw TypeError.

(** [M[i, :]] for one row. *)
Definition spa_getrow (M : spmatrix) (i : nat) : result vec :=
  if subscriptable (sp_format_of M) then
    match nth_error (sp_rows M) i with
    | Some r => ret r
    | None => throw IndexError
    end
  else throw TypeError.

(** [spa.vstack(blocks)]: the blocks must have the same number of columns;
    the result is CSR when every block is, and COO otherwise. *)
Fixpoint spa_vstack_rows (k : nat) (blocks : list spmatrix) : result (list vec) :=
  match blocks with
  | [] => ret []
  | B :: rest =>
      if (sp_ncols B =? k)%nat then r <- spa_vstack_rows k rest ;; ret (sp_rows B ++ r)
      else throw ValueError
  end.

Definition spa_vstack (blocks : list spmatrix) : result spmatrix :=
  match blocks with
  | [] => throw ValueError
  | B :: _ =>
      r <- spa_vstack_rows (sp_ncols B) blocks ;;
      ret (SpMatrix (if forallb is_csr blocks then csr else coo) (sp_ncols B) r)
  end.

(** [M.dot(x)] for a one-axis [x]: the inner product with every row. *)
Definition spa_dot (M : spmatrix) (x : vec) : result vec :=
  if (sp_ncols M =? length x)%nat then ret (map (fun r => dot r x) (sp_rows M))
  else throw ValueError.

(** ** Python built-ins the module relies on *)

(** [t <= f] for a tuple [t] and a Python float [f]: unorderable types. *)
Definition py_tuple_le_float (t : list (list nat)) (f : R) : result bool :=
  throw TypeError.

(** [set(b)] for a [bool]: not iterable. *)
Definition py_set_of_bool (b : bool) : result (list nat) :=
  throw TypeError.

(** [x.opt] for a numpy array [x]: the class has no such attribute. *)
Definition ndarray_getattr_opt (x : vec) : result vec :=
  throw AttributeError.

(** [s in xs] for a list of strings. *)
Definition py_in (s : string) (xs : list string) : bool :=
  existsb (String.eqb s) xs.

(** [assert b]. *)
Definition py_assert (b : bool) : result unit :=
  if b then ret tt else throw AssertionError.

(** ** class ProblemData: the methods *)

Module ProblemDataMethods.
Import ProblemData.

Section WithConstants.

(** [constants.TOL]. *)
Variable TOL : R.

(** [eq_ineq] (lines 20-27).  The comparison with [TOL] is applied to the
    tuple [np.where] returns, not to the difference [u - l]. *)
Definition eq_ineq (self : ProblemData.t) : result (bool * list nat) :=
  let n_con := np_len (l self) in
  d <- np_sub (u self) (l self) ;;
  eq <- py_tuple_le_float (np_where_nonzero d) TOL ;;
  eq_set <- py_set_of_bool eq ;;
  let ineq := filter (fun i => negb (existsb (Nat.eqb i) eq_set)) (seq 0 n_con) in
  ret (eq, ineq).

End WithConstants.

(** [cost] (lines 29-31). *)
Definition cost (self : ProblemData.t) (x : vec) : result R :=
  np_dot (c self) x.

(** [is_mip] (lines 33-35). *)
Definition is_mip (self : ProblemData.t) : bool :=
  (0 <? length (int_idx self))%nat.

End ProblemDataMethods.

(** ** class OptimizationProblem *)

Module OptimizationProblem.
Import ProblemData.

(** [is_mip] (lines 40-42) and [cost] (lines 72-73) forward to the data. *)
Definition is_mip (data : ProblemData.t) : bool := ProblemDataMethods.is_mip data.

Definition cost (data : ProblemData.t) (x : vec) : result R :=
  ProblemDataMethods.cost data x.

Section WithEnvironment.

(** [constants.TOL]. *)
Variable TOL : R.

(** [solvers.statuses.SOLUTION_PRESENT]. *)
Variable SOLUTION_PRESENT : list string.

(** [SOLVER_MAP[solver](settings).solve]: the adapter chosen by the
    arguments [solver] and [settings]. *)
Variable solver : ProblemData.t -> Results.t.

(** The cvxpy / GUROBI run of lines 122-127: [None] when it completes,
    [Some e] when it raises [e]. *)
Variable cross_check : ProblemData.t -> option exn.

(** The rows [norm_A] of line 50. *)
Definition row_norms (A : spmatrix) : result (list R) :=
  map_result (fun i => r <- spa_getrow A i ;; ret (np_linalg_norm r))
             (seq 0 (length (sp_rows A))).

(** [np.maximum(a, 0.)]. *)
Definition np_maximum0 (a : vec) : vec := map (fun r => Rmax r 0) a.

(** One of the loops of lines 56-61, from position [i] on: an entry that is
    at least [TOL] is divided by [max(norm_A[i], |bound[i]|)], the others
    are left as they are. *)
Fixpoint normalize_from (norm_A : list R) (bound : vec) (i : nat) (viol : vec)
  : result vec :=
  match viol with
  | [] => ret []
  | v :: rest =>
      v' <- (if Rgeb v TOL then
               match nth_error norm_A i with
               | None => throw IndexError
               | Some na =>
                   match nth_error bound i with
                   | None => throw IndexError
                   | Some b => ret (v / Rmax na (Rabs b))
                   end
               end
             else ret v) ;;
      r <- normalize_from norm_A bound (S i) rest ;;
      ret (v' :: r)
  end.

(** [infeasibility] (lines 44-63) on bounds that are one-axis arrays. *)
Definition infeasibility_1d (l : vec) (A : spmatrix) (u : vec) (x : vec) : result R :=
  norm_A <- row_norms A ;;
  Ax <- spa_dot A x ;;
  d_up <- broadcast (fun p q => ret (p - q)) Ax u ;;
  let upper := np_maximum0 d_up in
  Ax' <- spa_dot A x ;;
  d_lo <- broadcast (fun p q => ret (p - q)) l Ax' ;;
  let lower := np_maximum0 d_lo in
  upper' <- normalize_from norm_A u 0 upper ;;
  lower' <- normalize_from norm_A l 0 lower ;;
  s <- broadcast (fun p q => ret (p + q)) upper' lower' ;;
  ret (np_linalg_norm s).

(** [infeasibility]: the bounds of a problem instance are one-axis arrays;
    the two-axis bounds that [solve_with_strategy] stacks are only handed
    to the solver, and [None] marks them as outside this embedding. *)
Definition infeasibility (data : ProblemData.t) (x : vec) : option (result R) :=
  match l data, u data with
  | Arr1 lv, Arr1 uv => Some (infeasibility_1d lv (A data) uv x)
  | _, _ => None
  end.

(** [suboptimality] (lines 65-70).  The second cost is taken at [x.opt];
    the parameter [x_opt] is not read. *)
Definition suboptimality (data : ProblemData.t) (x x_opt : vec) : result R :=
  let c := c data in
  cx <- ProblemDataMethods.cost data x ;;
  xo <- ndarray_getattr_opt x ;;
  co <- ProblemDataMethods.cost data xo ;;
  n <- np_linalg_norm_inf c ;;
  ret ((cx - co) / n).

(** The exception of line 128. *)
Definition not_solved (st : string) : exn :=
  Exn ValueError [PyStr ("Problem not solved. Status " ++ st)].

(** The continuous restriction of lines 138-145: the integer variables are
    fixed at [x_int] by one more row each. *)
Definition continuous_restriction (data : ProblemData.t) (x_int : vec)
  : result ProblemData.t :=
  let c_cont := c data in
  let n_var := length c_cont in
  fix_rows <- spa_getitem_rows (spa_eye n_var csc) (int_idx data) ;;
  A_cont <- spa_vstack [A data; fix_rows] ;;
  u_cont <- np_concatenate (u data) (Arr1 x_int) ;;
  l_cont <- np_concatenate (l data) (Arr1 x_int) ;;
  ret (ProblemData.Build c_cont l_cont A_cont u_cont []).

(** [solve] (lines 75-158). *)
Definition solve (data : ProblemData.t) : result (vec * R * Strategy.t) :=
  let results := solver data in
  if negb (py_in (Results.status results) SOLUTION_PRESENT) then
    match cross_check data with
    | Some e => inl e
    | None => inl (not_solved (Results.status results))
    end
  else
    let x_opt := Results.x results in
    let time := Results.run_time results in
    if is_mip data then
      x_int <- take (Results.x results) (int_idx data) ;;
      data_cont <- continuous_restriction data x_int ;;
      let results_cont := solver data_cont in
      let active_constraints := Results.active_constraints results_cont in
      ret (x_opt, time, Strategy.Build x_int active_constraints)
    else
      let active_constraints := Results.active_constraints results in
      ret (x_opt, time, Strategy.Build [] active_constraints).

(** The two assertions of lines 222-224. *)
Definition check_int_vars (data : ProblemData.t) (strategy : Strategy.t) : result unit :=
  if is_mip data then
    hi <- np_max (Strategy.int_vars strategy) ;;
    py_assert (Rleb hi (INR (np_len (l data)))) ;;
    lo <- np_min (Strategy.int_vars strategy) ;;
    py_assert (Rgeb lo 0)
  else ret tt.

(** The reduced problem of lines 219-249.  [int_idx] is bound to the
    strategy's [int_vars]; [spa.eye] is called without a format.  The row
    index of [A[np.where(...), :]] is the 1-tuple [np.where] returns. *)
Definition reduced_problem (data : ProblemData.t) (strategy : Strategy.t)
  : result ProblemData.t :=
  let int_idx := Strategy.int_vars strategy in
  let active_constr := Strategy.active_constraints strategy in
  let n_var := length (c data) in
  let A_red := spa_csc_matrix_empty n_var in
  let bound_red := Arr1 [] in
  fixed <- (if is_mip data then
              fix_rows <- spa_getitem_rows_float (spa_eye n_var dia) int_idx ;;
              A_red' <- spa_vstack [A_red; fix_rows] ;;
              bound_red' <- np_vstack [bound_red; Arr1 int_idx] ;;
              ret (A_red', bound_red')
            else ret (A_red, bound_red)) ;;
  let '(A_red, bound_red) := fixed in
  let active_constraints_upper := np_where (map (Z.eqb 1) active_constr) in
  let active_constraints_lower := np_where (map (Z.eqb (-1)) active_constr) in
  A_upper <- spa_getitem_where_rows (A data) active_constraints_upper ;;
  u_upper <- np_getitem_where (u data) active_constraints_upper ;;
  A_lower <- spa_getitem_where_rows (A data) active_constraints_lower ;;
  l_lower <- np_getitem_where (l data) active_constraints_lower ;;
  A_red <- spa_vstack [A_red; A_lower; A_upper] ;;
  bound_red <- np_vstack [bound_red; l_lower; u_upper] ;;
  ret (ProblemData.Build (c data) bound_red A_red bound_red []).

(** [solve_with_strategy] (lines 197-254). *)
Definition solve_with_strategy (data : ProblemData.t) (strategy : Strategy.t)
  : result (vec * R) :=
  check_int_vars data strategy ;;
  problem_data <- reduced_problem data strategy ;;
  r <- solve problem_data ;;
  let '(x, time, _) := r in
  ret (x, time).

End WithEnvironment.

(** *** solve_parametric *)

(** [xs[i] = v] on a Python list. *)
Fixpoint list_setitem {X : Type} (xs : list X) (i : nat) (v : X) : result (list X) :=
  match xs, i with
  | [], _ => throw IndexError
  | _ :: rest, O => ret (v :: rest)
  | a :: rest, S j => r <- list_setitem rest j v ;; ret (a :: r)
  end.

(** [theta.iloc[i, :]]: row [i] of the table. *)
Definition iloc {X : Type} (theta : list X) (i : nat) : result X :=
  match nth_error theta i with
  | Some row => ret row
  | None => throw IndexError
  end.

(** What the loop of [solve_parametric] works on: the [data] of the
    problem object, which [populate] rewrites, and the three preallocated
    lists, whose entries start as [None]. *)
Record batch := Batch {
  batch_data : ProblemData.t;
  batch_x : list (option vec);
  batch_time : list (option R);
  batch_strategy : list (option Strategy.t)
}.

Section WithPopulate.

Variable SOLUTION_PRESENT : list string.
Variable solver : ProblemData.t -> Results.t.
Variable cross_check : ProblemData.t -> option exn.

(** A row of the table of parameters. *)
Variable Theta : Type.

(** [self.populate], which the subclasses of [OptimizationProblem] define:
    it rewrites the data of the problem from a row of parameters, or raises. *)
Variable populate : Theta -> ProblemData.t -> result ProblemData.t.

(** The body of the loop of lines 191-193 for the index [i]. *)
Definition solve_parametric_step (theta : list Theta) (st : batch) (i : nat)
  : result batch :=
  row <- iloc theta i ;;
  data <- populate row (batch_data st) ;;
  r <- solve SOLUTION_PRESENT solver cross_check data ;;
  let '(x_i, time_i, strategy_i) := r in
  x <- list_setitem (batch_x st) i (Some x_i) ;;
  time <- list_setitem (batch_time st) i (Some time_i) ;;
  strategy <- list_setitem (batch_strategy st) i (Some strategy_i) ;;
  ret (Batch data x time strategy).

(** [for i in indices: body]. *)
Fixpoint solve_parametric_loop (theta : list Theta) (indices : list nat) (st : batch)
  : result batch :=
  match indices with
  | [] => ret st
  | i :: rest =>
      st' <- solve_parametric_step theta st i ;;
      solve_parametric_loop theta rest st'
  end.

(** [solve_parametric] (lines 160-195): the three lists it returns, and the
    data the problem object is left with. *)
Definition solve_parametric (data : ProblemData.t) (theta : list Theta)
  : result (list (option vec) * list (option R) * list (option Strategy.t)
            * ProblemData.t) :=
  let n := length theta in
  let x := repeat None n in
  let time := repeat None n in
  let strategy := repeat None n in
  st <- solve_parametric_loop theta (seq 0 n) (Batch data x time strategy) ;;
  ret (batch_x st, batch_time st, batch_strategy st, batch_data st).

End WithPopulate.

End OptimizationProblem.

(** ** Concrete instances *)

Import OptimizationProblem.

(** The status vocabulary of the examples: one status with a solution. *)
Definition sp_optimal : list string := ["optimal"%string].

(** A cross-check that completes without raising. *)
Definition cross_check_completes : ProblemData.t -> option exn := fun _ => None.

(** minimize x1 + x2 subject to 1 <= x1 + x2 <= 4, 0 <= x1 <= 2, 0 <= x2 <= 2. *)
Definition lp_sum : ProblemData.t :=
  ProblemData.Build [1; 1] (Arr1 [1; 0; 0])
    (SpMatrix csc 2 [[1; 1]; [1; 0]; [0; 1]]) (Arr1 [4; 2; 2]) [].

(** An adapter that reports the optimum (1, 0) of [lp_sum]: the first and
    the third row are tight at their lower bound. *)
Definition solver_lp_sum : ProblemData.t -> Results.t :=
  fun _ => Results.Build "optimal" [1; 0] 0 [(-1)%Z; 0%Z; (-1)%Z].

Definition strategy_lp_sum : Strategy.t :=
  Strategy.Build [] [(-1)%Z; 0%Z; (-1)%Z].

(** minimize -x1 subject to 0 <= x1 <= 1, x1 integer. *)
Definition mip_one : ProblemData.t :=
  ProblemData.Build [-1] (Arr1 [0]) (SpMatrix csc 1 [[1]]) (Arr1 [1]) [0%Z].

(** An adapter that reports x1 = 1 with every row of the instance it is
    handed tight at its upper bound: one entry per row. *)
Definition solver_row_aligned : ProblemData.t -> Results.t :=
  fun d => Results.Build "optimal" [1] 0
             (map (fun _ => 1%Z) (sp_rows (ProblemData.A d))).

(** One variable, two rows, the variable integer. *)
Definition mip_two_rows : ProblemData.t :=
  ProblemData.Build [1] (Arr1 [0; 0]) (SpMatrix csc 1 [[1]; [1]]) (Arr1 [5; 5]) [0%Z].

(** Three variables, one row, the last variable integer. *)
Definition mip_three_vars : ProblemData.t :=
  ProblemData.Build [1; 1; 1] (Arr1 [0]) (SpMatrix csc 3 [[1; 1; 1]]) (Arr1 [5]) [2%Z].

(** A strategy whose only integer entry is 2. *)
Definition strategy_two (active : list Z) : Strategy.t := Strategy.Build [2] active.

(** One variable with 0 <= x1 <= 1. *)
Definition lp_unit : ProblemData.t :=
  ProblemData.Build [1] (Arr1 [0]) (SpMatrix csc 1 [[1]]) (Arr1 [1]) [].

(** The infeasible instance l = [5], u = [1], and an adapter that says so. *)
Definition lp_infeasible : ProblemData.t :=
  ProblemData.Build [1] (Arr1 [5]) (SpMatrix csc 1 [[1]]) (Arr1 [1]) [].

Definition solver_infeasible : ProblemData.t -> Results.t :=
  fun _ => Results.Build "infeasible" [] 0 [].

(** ** What the specification asks of the metrics and of the error *)

(** [x] satisfies [l <= A x <= u] in every row, up to [tol]. *)
Definition feasible_within (tol : R) (l : vec) (A : spmatrix) (u : vec) (x : vec) : Prop :=
  forall i li r ui,
    nth_error l i = Some li -> nth_error (sp_rows A) i = Some r ->
    nth_error u i = Some ui ->
    li - dot r x <= tol /\ dot r x - ui <= tol.

(** The exception [e] was constructed from the object [o]. *)
Definition carries (e : exn) (o : pyobj) : Prop := In o (exn_args e).

(** ** Definitions used in the proofs *)

(** The computation [r] raises nothing but an exception of class [k]
    without arguments. *)
Definition raises_only {T : Type} (k : exn_class) (r : result T) : Prop :=
  forall e, r = inl e -> e = Exn k [].

(** A row of the instance: its lower bound, its coefficients, its upper bound. *)
Definition row := (R * vec * R)%type.
Definition row_l (t : row) : R := fst (fst t).
Definition row_a (t : row) : vec := snd (fst t).
Definition row_u (t : row) : R := snd t.

(** What one pass of the loops of lines 56-61 leaves at a position. *)
Definition normalized (TOL na b v : R) : R :=
  if Rgeb v TOL then v / Rmax na (Rabs b) else v.

(** The violation of the upper and of the lower bound in a row. *)
Definition over (x : vec) (t : row) : R := Rmax (dot (row_a t) x - row_u t) 0.
Definition under (x : vec) (t : row) : R := Rmax (row_l t - dot (row_a t) x) 0.

(** The entry of [upper + lower] for a row. *)
Definition row_term (TOL : R) (x : vec) (t : row) : R :=
  normalized TOL (np_linalg_norm (row_a t)) (row_u t) (over x t)
  + normalized TOL (np_linalg_norm (row_a t)) (row_l t) (under x t).

(** The row holds with no tolerance. *)
Definition row_feasible (x : vec) (t : row) : Prop :=
  row_l t <= dot (row_a t) x /\ dot (row_a t) x <= row_u t.

(** Comparisons of concrete reals. *)
Ltac real_tests :=
  unfold Rleb, Rgeb, Rneqb, Rmax, Rmin;
  repeat match goal with
         | |- context [Rle_dec ?a ?b] => destruct (Rle_dec a b); try lra
         | |- context [Rge_dec ?a ?b] => destruct (Rge_dec a b); try lra
         | |- context [Req_dec_T ?a ?b] => destruct (Req_dec_T a b); try lra
         end.

(** The samples of a table one after the other: each row is populated
    into the data the previous one left and solved; the outputs in the
    order of the rows, and the data left at the end. *)
Fixpoint run_samples {Theta : Type}
  (SOLUTION_PRESENT : list string) (solver : ProblemData.t -> Results.t)
  (cross_check : ProblemData.t -> option exn)
  (populate : Theta -> ProblemData.t -> result ProblemData.t)
  (data : ProblemData.t) (rows : list Theta)
  : result (list (vec * R * Strategy.t) * ProblemData.t) :=
  match rows with
  | [] => ret ([], data)
  | th :: rest =>
      d <- populate th data ;;
      r <- solve SOLUTION_PRESENT solver cross_check d ;;
      out <- run_samples SOLUTION_PRESENT solver cross_check populate d rest ;;
      ret (r :: fst out, snd out)
  end.

(** The three lists [solve_parametric] fills from the outputs of the samples. *)
Definition batch_lists (out : list (vec * R * Strategy.t))
  : list (option vec) * list (option R) * list (option Strategy.t) :=
  (map (fun r => Some (fst (fst r))) out,
   map (fun r => Some (snd (fst r))) out,
   map (fun r => Some (snd r)) out).

(** An adapter that answers from the cost vector of the instance: status
    "optimal" with [x = c] when [c] has entries, "infeasible" when it has none. *)
Definition solver_echo : ProblemData.t -> Results.t :=
  fun d => match ProblemData.c d with
           | [] => Results.Build "infeasible" [] 0 []
           | _ => Results.Build "optimal" (ProblemData.c d) 0
                    (map (fun _ => 0%Z) (sp_rows (ProblemData.A d)))
           end.

(** A [populate] that builds the instance from the row alone: the row is
    the cost vector of one variable with 0 <= x1 <= 1. *)
Definition populate_cost (th : vec) (d : ProblemData.t) : result ProblemData.t :=
  ret (ProblemData.Build th (Arr1 [0]) (SpMatrix csc 1 [[1]]) (Arr1 [1]) []).

(** [i] is an index Python accepts on an axis of length [n]. *)
Definition valid_index (n : nat) (i : Z) : Prop :=
  (- Z.of_nat n <= i < Z.of_nat n)%Z.

(** The MIP [mip_one] with its integer index out of range. *)
Definition mip_bad_index : ProblemData.t :=
  ProblemData.Build [-1] (Arr1 [0]) (SpMatrix csc 1 [[1]]) (Arr1 [1]) [5%Z].

(** The entries of [int_vars] that the assertions of lines 223-224 accept
    on an instance of [m] rows. *)
Definition accepted_int_var (m : nat) (v : R) : Prop := 0 <= v <= INR m.

(** The instance with every row multiplied by [alpha]: the row of [A] and
    its two bounds. *)
Definition scale_vec (alpha : R) (v : vec) : vec := map (Rmult alpha) v.

Definition scale_array (alpha : R) (a : ndarray) : ndarray :=
  match a with
  | Arr1 v => Arr1 (scale_vec alpha v)
  | Arr2 k rows => Arr2 k (map (scale_vec alpha) rows)
  end.

Definition scale_rows (alpha : R) (data : ProblemData.t) : ProblemData.t :=
  ProblemData.Build (ProblemData.c data)
    (scale_array alpha (ProblemData.l data))
    (SpMatrix (sp_format_of (ProblemData.A data)) (sp_ncols (ProblemData.A data))
       (map (scale_vec alpha) (sp_rows (ProblemData.A data))))
    (scale_array alpha (ProblemData.u data))
    (ProblemData.int_idx data).

(** A violation the normalisation treats the same before and after the
    rows are multiplied by [alpha]: none, or one that reaches [TOL] both
    times. *)
Definition normalised_both (TOL alpha v : R) : Prop :=
  v = 0 \/ (TOL <= v /\ TOL <= alpha * v).

Definition scale_row (alpha : R) (t : row) : row :=
  (alpha * row_l t, scale_vec alpha (row_a t), alpha * row_u t).

(** * Properties *)

(** ** Errors raised inside numpy and scipy carry no argument *)

Lemma take_error {X : Type} (xs : list X) (idx : list Z) (e : exn) :
  take xs idx = inl e -> e = Exn IndexError [].
Proof.
  revert e. induction idx as [|i rest IH]; intros e H; cbn in H.
  - discriminate.
  - destruct (norm_index (length xs) i); [|inversion H; reflexivity].
    destruct (nth_error xs n); [|inversion H; reflexivity].
    destruct (take xs rest) eqn:E; cbn in H; [|discriminate].
    inversion H; subst. now apply IH.
Qed.

Lemma take_length {X : Type} (xs : list X) (idx : list Z) (r : list X) :
  take xs idx = inr r -> length r = length idx.
Proof.
  revert r. induction idx as [|i rest IH]; intros r H; cbn in H.
  - inversion H; reflexivity.
  - destruct (norm_index (length xs) i); [|discriminate].
    destruct (nth_error xs n); [|discriminate].
    destruct (take xs rest); cbn in H; [discriminate|].
    inversion H; subst. cbn. f_equal. now apply IH.
Qed.

Lemma spa_getitem_rows_error (M : spmatrix) (idx : list Z) (e : exn) :
  spa_getitem_rows M idx = inl e -> exn_args e = [].
Proof.
  unfold spa_getitem_rows. destruct (subscriptable _); cbn.
  - destruct (take (sp_rows M) idx) eqn:E; [|discriminate].
    intros H; inversion H; subst. now rewrite (take_error _ _ _ E).
  - intros H; inversion H; reflexivity.
Qed.

Lemma spa_vstack_rows_error (k : nat) (blocks : list spmatrix) (e : exn) :
  spa_vstack_rows k blocks = inl e -> e = Exn ValueError [].
Proof.
  revert e. induction blocks as [|B rest IH]; intros e H; cbn in H.
  - discriminate.
  - destruct (sp_ncols B =? k)%nat; [|inversion H; reflexivity].
    destruct (spa_vstack_rows k rest); cbn in H; [|discriminate].
    inversion H; subst. now apply IH.
Qed.

Lemma spa_vstack_error (blocks : list spmatrix) (e : exn) :
  spa_vstack blocks = inl e -> exn_args e = [].
Proof.
  destruct blocks as [|B rest]; cbn -[spa_vstack_rows].
  - intros H; inversion H; reflexivity.
  - destruct (spa_vstack_rows (sp_ncols B) (B :: rest)) eqn:E; [|discriminate].
    intros H; inversion H; subst. now rewrite (spa_vstack_rows_error _ _ _ E).
Qed.

Lemma np_concatenate_error (a b : ndarray) (e : exn) :
  np_concatenate a b = inl e -> exn_args e = [].
Proof.
  destruct a, b; cbn; try discriminate;
    try (intros H; inversion H; reflexivity).
  destruct (_ =? _)%nat; [discriminate|]. intros H; inversion H; reflexivity.
Qed.

Lemma continuous_restriction_error (data : ProblemData.t) (x_int : vec) (e : exn) :
  continuous_restriction data x_int = inl e -> exn_args e = [].
Proof.
  unfold continuous_restriction. cbn -[spa_getitem_rows spa_vstack np_concatenate spa_eye].
  destruct (spa_getitem_rows _ _) eqn:E1.
  { intros H; inversion H; subst. eapply spa_getitem_rows_error; eauto. }
  destruct (spa_vstack _) eqn:E2.
  { intros H; inversion H; subst. eapply spa_vstack_error; eauto. }
  destruct (np_concatenate (ProblemData.u data) _) eqn:E3.
  { intros H; inversion H; subst. eapply np_concatenate_error; eauto. }
  destruct (np_concatenate (ProblemData.l data) _) eqn:E4.
  { intros H; inversion H; subst. eapply np_concatenate_error; eauto. }
  discriminate.
Qed.

Section Pipeline.

Variable SOLUTION_PRESENT : list string.
Variable solver : ProblemData.t -> Results.t.
Variable cross_check : ProblemData.t -> option exn.

Local Abbreviation solve := (OptimizationProblem.solve SOLUTION_PRESENT solver cross_check).
Local Abbreviation solve_with_strategy :=
  (OptimizationProblem.solve_with_strategy SOLUTION_PRESENT solver cross_check).
Local Abbreviation status_of d := (Results.status (solver d)).

(** [solve] unfolded on a status that has a solution. *)
Lemma solve_present (data : ProblemData.t) :
  py_in (status_of data) SOLUTION_PRESENT = true ->
  solve data =
    if is_mip data then
      x_int <- take (Results.x (solver data)) (ProblemData.int_idx data) ;;
      data_cont <- continuous_restriction data x_int ;;
      ret (Results.x (solver data), Results.run_time (solver data),
           Strategy.Build x_int (Results.active_constraints (solver data_cont)))
    else
      ret (Results.x (solver data), Results.run_time (solver data),
           Strategy.Build [] (Results.active_constraints (solver data))).
Proof.
  intros H. unfold OptimizationProblem.solve. rewrite H. reflexivity.
Qed.

(** [solve] on a status without a solution: an exception, whatever the
    cross-check does. *)
Lemma solve_absent (data : ProblemData.t) :
  py_in (status_of data) SOLUTION_PRESENT = false ->
  solve data = inl (match cross_check data with
                    | Some e => e
                    | None => not_solved (status_of data)
                    end).
Proof.
  intros H. unfold OptimizationProblem.solve. rewrite H. cbn.
  now destruct (cross_check data).
Qed.

(** An exception of [solve] on a status that has a solution comes from
    numpy or scipy. *)
Lemma solve_present_error (data : ProblemData.t) (e : exn) :
  py_in (status_of data) SOLUTION_PRESENT = true ->
  solve data = inl e -> exn_args e = [].
Proof.
  intros Hin. rewrite (solve_present _ Hin).
  destruct (is_mip data); [|discriminate].
  cbn -[take continuous_restriction].
  destruct (take _ _) eqn:E1.
  { intros H; inversion H; subst. now rewrite (take_error _ _ _ E1). }
  destruct (continuous_restriction _ _) eqn:E2; [|discriminate].
  intros H; inversion H; subst. eapply continuous_restriction_error; eauto.
Qed.

(** The continuous restriction has one more row per integer index. *)
Lemma continuous_restriction_rows
  (data : ProblemData.t) (x_int : vec) (data_cont : ProblemData.t) :
  continuous_restriction data x_int = inr data_cont ->
  length (sp_rows (ProblemData.A data_cont))
  = (length (sp_rows (ProblemData.A data)) + length (ProblemData.int_idx data))%nat.
Proof.
  unfold continuous_restriction, spa_getitem_rows.
  cbn -[take np_concatenate spa_eye].
  destruct (take _ _) as [|fix_rows] eqn:Et; [discriminate|].
  cbn -[take np_concatenate spa_eye].
  destruct (sp_ncols _ =? sp_ncols _)%nat; [|discriminate]. cbn.
  destruct (_ =? _)%nat; [|discriminate]. cbn.
  destruct (np_concatenate (ProblemData.u data) _); [discriminate|]. cbn.
  destruct (np_concatenate (ProblemData.l data) _); [discriminate|]. cbn.
  intros H. inversion H; subst. cbn.
  rewrite length_app, app_nil_r. f_equal. now apply take_length in Et.
Qed.

(** X14.  With an adapter that reports one entry per row of the instance
    it is handed, the strategy of a solved MIP has [m + |int_idx|] entries. *)
Lemma solve_mip_active_constraints_length
  (data : ProblemData.t) (x_opt : vec) (time : R) (strategy : Strategy.t) :
  (forall d, length (Results.active_constraints (solver d))
             = length (sp_rows (ProblemData.A d))) ->
  is_mip data = true ->
  solve data = inr (x_opt, time, strategy) ->
  length (Strategy.active_constraints strategy)
  = (length (sp_rows (ProblemData.A data)) + length (ProblemData.int_idx data))%nat.
Proof.
  intros Haligned Hmip H.
  destruct (py_in (status_of data) SOLUTION_PRESENT) eqn:Hin.
  2:{ rewrite (solve_absent _ Hin) in H. discriminate. }
  rewrite (solve_present _ Hin), Hmip in H.
  cbn -[take continuous_restriction] in H.
  destruct (take _ _) as [e|x_int]; [discriminate|].
  destruct (continuous_restriction _ _) as [e|data_cont] eqn:E; [discriminate|].
  inversion H; subst. cbn. rewrite Haligned. now apply continuous_restriction_rows in E.
Qed.

(** C2.  When [solve] succeeds, the vector it returns is the [x] of the
    primary solver run on the instance itself and the time is that run's
    [run_time].  On a MIP the second run, on the continuous restriction,
    supplies the [active_constraints] of the strategy and nothing else: the
    strategy's [int_vars] are read from the primary [x].  On a continuous
    instance the strategy holds the primary run's active constraints. *)
Theorem solve_returns_primary_solution
  (data : ProblemData.t) (x_opt : vec) (time : R) (strategy : Strategy.t) :
  solve data = inr (x_opt, time, strategy) ->
  x_opt = Results.x (solver data) /\
  time = Results.run_time (solver data) /\
  (is_mip data = true ->
   exists x_int data_cont,
     take (Results.x (solver data)) (ProblemData.int_idx data) = inr x_int /\
     continuous_restriction data x_int = inr data_cont /\
     strategy = Strategy.Build x_int (Results.active_constraints (solver data_cont))) /\
  (is_mip data = false ->
   strategy = Strategy.Build [] (Results.active_constraints (solver data))).
Proof.
  intros H.
  destruct (py_in (status_of data) SOLUTION_PRESENT) eqn:Hin.
  2:{ rewrite (solve_absent _ Hin) in H. discriminate. }
  rewrite (solve_present _ Hin) in H.
  destruct (is_mip data) eqn:Hmip.
  - cbn -[take continuous_restriction] in H.
    destruct (take _ _) as [e|x_int] eqn:E1; [discriminate|].
    destruct (continuous_restriction _ _) as [e|data_cont] eqn:E2; [discriminate|].
    inversion H; subst. repeat split; try discriminate.
    intros _. exists x_int, data_cont. auto.
  - inversion H; subst. repeat split; auto. discriminate.
Qed.

(** C9 (as amended).  On a status outside [SOLUTION_PRESENT] [solve]
    returns no solution.  When the cross-check of lines 122-127 completes,
    the exception is the [ValueError] of line 128, whose only argument is
    the message ending in the status, and [solve] raises it exactly when
    the status is outside [SOLUTION_PRESENT]. *)
Theorem solve_raises_iff_no_solution_present (data : ProblemData.t) :
  (py_in (status_of data) SOLUTION_PRESENT = false ->
   forall r, solve data <> inr r) /\
  (cross_check data = None ->
   (solve data = inl (not_solved (status_of data)) <->
    py_in (status_of data) SOLUTION_PRESENT = false)) /\
  not_solved (status_of data) =
    Exn ValueError [PyStr ("Problem not solved. Status " ++ status_of data)].
Proof.
  split; [|split].
  - intros Hin r. rewrite (solve_absent _ Hin). discriminate.
  - intros Hcc. split.
    + intros H. destruct (py_in _ _) eqn:Hin; [|reflexivity].
      apply (solve_present_error _ _ Hin) in H. discriminate.
    + intros Hin. rewrite (solve_absent _ Hin), Hcc. reflexivity.
  - reflexivity.
Qed.



(** The assertions on [int_vars] can only fail on a MIP. *)
Lemma check_int_vars_fails_only_on_mip (data : ProblemData.t) (s : Strategy.t) (e : exn) :
  check_int_vars data s = inl e -> is_mip data = true.
Proof.
  unfold check_int_vars. destruct (is_mip data); [reflexivity|discriminate].
Qed.

End Pipeline.

(** ** The reduced problem of [solve_with_strategy] *)


(** On a MIP the fixing rows are taken from [spa.eye(n_var)], a DIA matrix,
    which cannot be indexed. *)
Lemma reduced_problem_mip (data : ProblemData.t) (s : Strategy.t) :
  is_mip data = true -> reduced_problem data s = throw TypeError.
Proof.
  intros H. unfold reduced_problem. rewrite H. reflexivity.
Qed.

(** On a continuous instance the rows of [A] are asked for with the tuple
    of [np.where] (line 240), which a CSC or CSR matrix refuses and a
    matrix of another format cannot be asked at all. *)
Lemma reduced_problem_continuous_raises (data : ProblemData.t) (s : Strategy.t) :
  is_mip data = false ->
  reduced_problem data s
  = if subscriptable (sp_format_of (ProblemData.A data))
    then throw IndexError else throw TypeError.
Proof.
  intros H. unfold reduced_problem, spa_getitem_where_rows. rewrite H. cbn.
  now destruct (subscriptable _).
Qed.

(** C1.  [solve] succeeds on [lp_sum] and returns the optimum (1, 0) with
    the strategy that marks rows 0 and 2 as tight below; handed this very
    strategy on the same instance, [solve_with_strategy] raises the
    [IndexError] of line 240 instead of returning a solution. *)
Theorem solve_with_strategy_round_trip_raises :
  solve sp_optimal solver_lp_sum cross_check_completes lp_sum
    = inr ([1; 0], 0, strategy_lp_sum) /\
  solve_with_strategy sp_optimal solver_lp_sum cross_check_completes lp_sum strategy_lp_sum
    = throw IndexError.
Proof. split; reflexivity. Qed.

(** C3.  On the MIP [mip_one] (one row, one integer variable) with an
    adapter that reports one entry per row of the instance it is handed,
    [solve] succeeds and the strategy holds the whole vector reported for
    the continuous restriction: two entries for an instance of one row,
    while [int_vars] has one entry per integer index.  The second entry
    points past the bounds of the instance: line 241 of
    [solve_with_strategy], [u[np.where(active_constr == 1)]], raises an
    [IndexError] on it. *)
Theorem solve_mip_strategy_not_restricted_to_rows :
  solve sp_optimal solver_row_aligned cross_check_completes mip_one
    = inr ([1], 0, Strategy.Build [1] [1%Z; 1%Z]) /\
  np_len (ProblemData.l mip_one) = 1%nat /\
  length (Strategy.active_constraints (Strategy.Build [1] [1%Z; 1%Z])) = 2%nat /\
  length (Strategy.int_vars (Strategy.Build [1] [1%Z; 1%Z]))
    = length (ProblemData.int_idx mip_one) /\
  np_getitem (ProblemData.u mip_one) (where_from 0 (map (Z.eqb 1) [1%Z; 1%Z]))
    = throw IndexError.
Proof. repeat split; reflexivity. Qed.

(** C4.  No reduced problem is built for the strategy of [lp_sum]: asking
    [A] for the rows of the upper bounds with the tuple of [np.where]
    raises an [IndexError] (line 240).  None is built for the MIP
    [mip_one] either: indexing [spa.eye(n_var)] raises a [TypeError]
    (line 234). *)
Theorem reduced_problem_is_not_built :
  reduced_problem lp_sum strategy_lp_sum = throw IndexError /\
  reduced_problem mip_one (Strategy.Build [1] [1%Z; 1%Z]) = throw TypeError.
Proof. split; reflexivity. Qed.

(** C5.  The assertions compare the entries of [int_vars] with the number
    of rows, not with the number of variables.  On [mip_two_rows] (one
    variable, two rows) the entry 2 passes them although it is outside
    [0, 1), and the exception comes later, from building the reduced
    problem; on [mip_three_vars] (three variables, one row) the entry 2 is
    refused although it is inside [0, 3). *)
Theorem check_int_vars_compares_with_row_count :
  length (ProblemData.c mip_two_rows) = 1%nat /\
  check_int_vars mip_two_rows (strategy_two [0%Z; 0%Z]) = inr tt /\
  solve_with_strategy sp_optimal solver_row_aligned cross_check_completes
    mip_two_rows (strategy_two [0%Z; 0%Z]) = throw TypeError /\
  length (ProblemData.c mip_three_vars) = 3%nat /\
  check_int_vars mip_three_vars (strategy_two [0%Z]) = throw AssertionError.
Proof.
  assert (H2 : check_int_vars mip_two_rows (strategy_two [0%Z; 0%Z]) = inr tt).
  { cbn. real_tests. cbn. real_tests. reflexivity. }
  repeat split.
  - exact H2.
  - unfold OptimizationProblem.solve_with_strategy. rewrite H2. reflexivity.
  - cbn. real_tests. reflexivity.
Qed.

(** ** Broadcasting raises nothing but [ValueError] *)


Lemma zip_with_raises {X Y W : Type} (k : exn_class) (f : X -> Y -> result W)
  (a : list X) (b : list Y) :
  (forall p q, raises_only k (f p q)) -> raises_only k (zip_with f a b).
Proof.
  intros Hf. revert b. induction a as [|p a IH]; intros b e H; cbn in H.
  - discriminate.
  - destruct b as [|q b]; [discriminate|].
    destruct (f p q) eqn:E; cbn in H.
    + inversion H; subst. now apply (Hf p q).
    + destruct (zip_with f a b) eqn:E'; cbn in H; [|discriminate].
      inversion H; subst. now apply (IH b).
Qed.

Lemma map_result_raises {X W : Type} (k : exn_class) (f : X -> result W) (a : list X) :
  (forall p, raises_only k (f p)) -> raises_only k (map_result f a).
Proof.
  intros Hf. induction a as [|p a IH]; intros e H; cbn in H.
  - discriminate.
  - destruct (f p) eqn:E; cbn in H.
    + inversion H; subst. now apply (Hf p).
    + destruct (map_result f a) eqn:E'; cbn in H; [|discriminate].
      inversion H; subst. now apply IH.
Qed.

Lemma broadcast_raises {X W : Type} (f : X -> X -> result W) (a b : list X) :
  (forall p q, raises_only ValueError (f p q)) ->
  raises_only ValueError (broadcast f a b).
Proof.
  intros Hf. unfold broadcast.
  destruct (length a =? length b)%nat; [now apply zip_with_raises|].
  destruct a as [|p [|p' a]]; destruct b as [|q [|q' b]];
    try (intros e H; inversion H; reflexivity);
    try (apply map_result_raises; intros; apply Hf).
Qed.

Lemma np_binop_raises (op : R -> R -> R) (a b : ndarray) :
  raises_only ValueError (np_binop op a b).
Proof.
  assert (Hpure : forall p q : R, raises_only ValueError (inr (op p q) : result R))
    by (intros p q e H; discriminate).
  assert (Hrow : forall v w : vec,
             raises_only ValueError (broadcast (fun p q => inr (op p q) : result R) v w))
    by (intros; now apply broadcast_raises).
  intros e H. destruct a, b; cbn -[broadcast] in H;
    match type of H with
    | context [broadcast ?f ?v ?w] =>
        destruct (broadcast f v w) eqn:E; cbn in H; [|discriminate];
        inversion H; subst; revert E; apply broadcast_raises; auto
    end.
Qed.

(** C6.  [eq_ineq] never returns a partition: once [u - l] is computed,
    comparing the tuple of [np.where] with [TOL] raises a [TypeError]; on
    bounds that do not broadcast the subtraction raises first. *)
Theorem eq_ineq_always_raises (TOL : R) (self : ProblemData.t) :
  ProblemDataMethods.eq_ineq TOL self = throw TypeError \/
  ProblemDataMethods.eq_ineq TOL self = throw ValueError.
Proof.
  unfold ProblemDataMethods.eq_ineq.
  destruct (np_sub (ProblemData.u self) (ProblemData.l self)) as [e|d] eqn:E.
  - right. apply np_binop_raises in E. subst e. reflexivity.
  - left. reflexivity.
Qed.

(** [eq_ineq] on well-shaped bounds: the [TypeError]. *)
Lemma eq_ineq_type_error (TOL : R) (self : ProblemData.t) (lv uv : vec) :
  ProblemData.l self = Arr1 lv -> ProblemData.u self = Arr1 uv ->
  length lv = length uv ->
  ProblemDataMethods.eq_ineq TOL self = throw TypeError.
Proof.
  intros Hl Hu Hlen. unfold ProblemDataMethods.eq_ineq. rewrite Hl, Hu.
  unfold np_sub, np_binop, broadcast. rewrite Hlen, Nat.eqb_refl.
  assert (H : forall a b : vec, exists r,
             zip_with (fun p q => inr (p - q) : result R) a b = inr r).
  { induction a as [|p a IH]; intros b; [now exists []|].
    destruct b as [|q b]; [now exists []|].
    destruct (IH b) as [r Hr]. exists ((p - q) :: r). cbn. now rewrite Hr. }
  destruct (H uv lv) as [r Hr]. cbn. cbn in Hr. rewrite Hr. reflexivity.
Qed.

(** C8.  [suboptimality] never returns a number: after the cost of [x] it
    reads [x.opt], which a numpy array does not have, and raises an
    [AttributeError]; when [x] has not the length of [c] the first cost
    raises a [ValueError] before that.  The argument [x_opt] plays no part. *)
Theorem suboptimality_always_raises (data : ProblemData.t) (x x_opt : vec) :
  suboptimality data x x_opt = throw AttributeError \/
  suboptimality data x x_opt = throw ValueError.
Proof.
  unfold suboptimality, ProblemDataMethods.cost, np_dot.
  destruct (length (ProblemData.c data) =? length x)%nat; [left|right]; reflexivity.
Qed.

(** [suboptimality] on a vector of the right length: the [AttributeError]. *)
Lemma suboptimality_attribute_error (data : ProblemData.t) (x x_opt : vec) :
  length x = length (ProblemData.c data) ->
  suboptimality data x x_opt = throw AttributeError.
Proof.
  intros H. unfold suboptimality, ProblemDataMethods.cost, np_dot.
  rewrite H, Nat.eqb_refl. reflexivity.
Qed.

(** The two metrics' siblings on [lp_unit]. *)
Example eq_ineq_lp_unit :
  ProblemDataMethods.eq_ineq (1/100) lp_unit = throw TypeError.
Proof. reflexivity. Qed.

Example suboptimality_lp_unit :
  suboptimality lp_unit [1] [1] = throw AttributeError.
Proof. reflexivity. Qed.

(** ** The infeasibility metric *)


Lemma rows_of_instance (l : vec) (rows : list vec) (u : vec) :
  length l = length rows -> length u = length rows ->
  exists T : list row, l = map row_l T /\ rows = map row_a T /\ u = map row_u T.
Proof.
  revert l u. induction rows as [|r rows IH]; intros l u Hl Hu.
  - destruct l, u; try discriminate. now exists [].
  - destruct l as [|li l], u as [|ui u]; try discriminate.
    destruct (IH l u) as [T [-> [-> ->]]]; [now inversion Hl|now inversion Hu|].
    now exists ((li, r, ui) :: T).
Qed.

Lemma map_result_ext {X W : Type} (f g : X -> result W) (a : list X) :
  (forall p, f p = g p) -> map_result f a = map_result g a.
Proof.
  intros H. induction a as [|p a IH]; [reflexivity|]. cbn. now rewrite H, IH.
Qed.

Lemma map_result_nth {X W : Type} (g : X -> W) (pre suf : list X) :
  map_result (fun i => match nth_error (pre ++ suf) i with
                       | Some r => inr (g r)
                       | None => throw IndexError
                       end)
             (seq (length pre) (length suf)) = inr (map g suf).
Proof.
  revert pre. induction suf as [|a suf IH]; intros pre; [reflexivity|].
  cbn [length seq map_result].
  rewrite nth_error_app2 by lia. rewrite Nat.sub_diag. cbn.
  specialize (IH (pre ++ [a])). rewrite <- app_assoc, length_app in IH.
  cbn in IH. rewrite Nat.add_1_r in IH. now rewrite IH.
Qed.

Lemma row_norms_eq (A : spmatrix) :
  subscriptable (sp_format_of A) = true ->
  row_norms A = inr (map np_linalg_norm (sp_rows A)).
Proof.
  intros Hsub. unfold row_norms.
  rewrite (map_result_ext _ (fun i => match nth_error ([] ++ sp_rows A) i with
                                      | Some r => inr (np_linalg_norm r)
                                      | None => throw IndexError
                                      end)).
  - apply (map_result_nth np_linalg_norm []).
  - intros i. unfold spa_getrow. rewrite Hsub. cbn.
    now destruct (nth_error (sp_rows A) i).
Qed.

Lemma zip_with_pure {X : Type} (op : R -> R -> R) (g h : X -> R) (T : list X) :
  zip_with (fun p q => inr (op p q) : result R) (map g T) (map h T)
  = inr (map (fun t => op (g t) (h t)) T).
Proof.
  induction T as [|t T IH]; [reflexivity|]. cbn. cbn in IH. now rewrite IH.
Qed.

Lemma broadcast_pure {X : Type} (op : R -> R -> R) (g h : X -> R) (T : list X) :
  broadcast (fun p q => inr (op p q) : result R) (map g T) (map h T)
  = inr (map (fun t => op (g t) (h t)) T).
Proof.
  unfold broadcast. rewrite !length_map, Nat.eqb_refl. apply zip_with_pure.
Qed.

Section Infeasibility.

Variable TOL : R.
Hypothesis TOL_pos : 0 < TOL.


Lemma normalize_from_eq {X : Type} (na b v : X -> R) (pre T : list X) :
  normalize_from TOL (map na (pre ++ T)) (map b (pre ++ T)) (length pre) (map v T)
  = inr (map (fun t => normalized TOL (na t) (b t) (v t)) T).
Proof.
  revert pre. induction T as [|t T IH]; intros pre; [reflexivity|].
  cbn [map normalize_from].
  rewrite !nth_error_map, !nth_error_app2 by lia. rewrite Nat.sub_diag. cbn.
  specialize (IH (pre ++ [t])). rewrite <- app_assoc, length_app in IH.
  cbn in IH. rewrite Nat.add_1_r in IH. cbn. rewrite IH.
  unfold normalized. now destruct (Rgeb (v t) TOL).
Qed.


Lemma infeasibility_1d_eq (T : list row) (A : spmatrix) (x : vec) :
  sp_rows A = map row_a T ->
  subscriptable (sp_format_of A) = true ->
  sp_ncols A = length x ->
  infeasibility_1d TOL (map row_l T) A (map row_u T) x
  = inr (np_linalg_norm (map (row_term TOL x) T)).
Proof.
  intros Hrows Hsub Hcols. unfold infeasibility_1d.
  rewrite (row_norms_eq _ Hsub). unfold spa_dot.
  rewrite Hcols, Nat.eqb_refl, Hrows.
  cbn -[broadcast normalize_from np_linalg_norm].
  rewrite !map_map.
  rewrite (broadcast_pure Rminus (fun t => dot (row_a t) x) row_u).
  cbn -[broadcast normalize_from np_linalg_norm].
  rewrite (broadcast_pure Rminus row_l (fun t => dot (row_a t) x)).
  cbn -[broadcast normalize_from np_linalg_norm].
  unfold np_maximum0. rewrite !map_map.
  pose proof (normalize_from_eq (fun t => np_linalg_norm (row_a t)) row_u
                (fun t => Rmax (dot (row_a t) x - row_u t) 0) [] T) as Eu.
  pose proof (normalize_from_eq (fun t => np_linalg_norm (row_a t)) row_l
                (fun t => Rmax (row_l t - dot (row_a t) x) 0) [] T) as El.
  cbn [app length] in Eu, El. rewrite Eu.
  cbn -[broadcast normalize_from np_linalg_norm].
  rewrite El.
  cbn -[broadcast normalize_from np_linalg_norm].
  rewrite (broadcast_pure Rplus
             (fun t => normalized TOL (np_linalg_norm (row_a t)) (row_u t)
                         (Rmax (dot (row_a t) x - row_u t) 0))
             (fun t => normalized TOL (np_linalg_norm (row_a t)) (row_l t)
                         (Rmax (row_l t - dot (row_a t) x) 0))).
  reflexivity.
Qed.

(** *** Sums of squares *)

Lemma dot_self_nonneg (v : vec) : 0 <= dot v v.
Proof.
  induction v as [|a v IH]; cbn; [lra|]. pose proof (Rle_0_sqr a) as H.
  unfold Rsqr in H. lra.
Qed.

Lemma dot_self_zero (v : vec) : dot v v = 0 <-> Forall (fun a => a = 0) v.
Proof.
  induction v as [|a v IH]; cbn.
  - split; [constructor|reflexivity].
  - pose proof (dot_self_nonneg v) as Hv. pose proof (Rle_0_sqr a) as Ha.
    unfold Rsqr in Ha. split.
    + intros H. assert (Ha0 : a * a = 0) by lra.
      apply Rmult_integral in Ha0. constructor; [tauto|]. apply IH. lra.
    + intros H. inversion H as [|? ? H1 H2]; subst. apply IH in H2. lra.
Qed.

Lemma dot_zero_left (r x : vec) : Forall (fun a => a = 0) r -> dot r x = 0.
Proof.
  revert x. induction r as [|a r IH]; intros x H; [reflexivity|].
  destruct x as [|b x]; [reflexivity|]. inversion H; subst. cbn.
  rewrite (IH x) by assumption. lra.
Qed.

Lemma norm_nonneg (v : vec) : 0 <= np_linalg_norm v.
Proof. apply sqrt_pos. Qed.

Lemma norm_zero (v : vec) : np_linalg_norm v = 0 <-> Forall (fun a => a = 0) v.
Proof.
  unfold np_linalg_norm. rewrite <- dot_self_zero. split.
  - apply sqrt_eq_0, dot_self_nonneg.
  - intros ->. apply sqrt_0.
Qed.

(** *** The loops never divide by zero *)

Lemma Rmax_zero_r (a : R) : Rmax a 0 = 0 <-> a <= 0.
Proof.
  unfold Rmax. destruct (Rle_dec a 0); lra.
Qed.

Lemma Rmax_zero_r_nonneg (a : R) : 0 <= Rmax a 0.
Proof. apply Rmax_r. Qed.

(** A violation that reaches [TOL] is divided by a positive number: where
    the row of [A] and the bound are both zero there is no violation. *)
Lemma divisor_positive (r x : vec) (b v : R) :
  (v = Rmax (dot r x - b) 0 \/ v = Rmax (b - dot r x) 0) ->
  TOL <= v -> 0 < Rmax (np_linalg_norm r) (Rabs b).
Proof.
  intros Hv Hge.
  destruct (Rlt_dec 0 (Rmax (np_linalg_norm r) (Rabs b))) as [|Hn]; [assumption|].
  exfalso.
  pose proof (Rmax_l (np_linalg_norm r) (Rabs b)) as H1.
  pose proof (Rmax_r (np_linalg_norm r) (Rabs b)) as H2.
  pose proof (norm_nonneg r) as H3. pose proof (Rabs_pos b) as H4.
  assert (Hr : np_linalg_norm r = 0) by lra.
  assert (Hb : b = 0).
  { destruct (Req_dec b 0) as [|Hb]; [assumption|].
    apply Rabs_no_R0 in Hb. lra. }
  apply norm_zero in Hr. rewrite (dot_zero_left _ x Hr), Hb in Hv.
  assert (Hz : Rmax (0 - 0) 0 = 0) by (apply Rmax_zero_r; lra).
  destruct Hv as [Hv|Hv]; rewrite Hv, Hz in Hge; lra.
Qed.

Lemma normalized_sign (na b v : R) :
  0 <= v -> (TOL <= v -> 0 < Rmax na (Rabs b)) ->
  0 <= normalized TOL na b v /\ (normalized TOL na b v = 0 <-> v = 0).
Proof.
  intros Hv Hd. unfold normalized, Rgeb.
  destruct (Rge_dec v TOL) as [Hge|Hlt].
  - assert (Hpos : 0 < v / Rmax na (Rabs b))
      by (apply Rdiv_lt_0_compat; [lra|apply Hd; lra]).
    split; [lra|]. split; lra.
  - split; [assumption|tauto].
Qed.

(** *** The metric on a list of rows *)


Lemma row_term_sign (x : vec) (t : row) :
  0 <= row_term TOL x t /\ (row_term TOL x t = 0 <-> row_feasible x t).
Proof.
  unfold row_term, row_feasible.
  destruct (normalized_sign (np_linalg_norm (row_a t)) (row_u t) (over x t))
    as [Hu0 Hu]; [apply Rmax_zero_r_nonneg| |].
  { apply (divisor_positive (row_a t) x). now left. }
  destruct (normalized_sign (np_linalg_norm (row_a t)) (row_l t) (under x t))
    as [Hl0 Hl]; [apply Rmax_zero_r_nonneg| |].
  { apply (divisor_positive (row_a t) x). now right. }
  split; [lra|].
  unfold over, under in *. rewrite Rmax_zero_r in Hu, Hl. split.
  - intros H. split; [apply Rminus_le, Hl; lra|apply Rminus_le, Hu; lra].
  - intros [H1 H2].
    assert (E1 : normalized TOL (np_linalg_norm (row_a t)) (row_u t)
                   (Rmax (dot (row_a t) x - row_u t) 0) = 0) by (apply Hu; lra).
    assert (E2 : normalized TOL (np_linalg_norm (row_a t)) (row_l t)
                   (Rmax (row_l t - dot (row_a t) x) 0) = 0) by (apply Hl; lra).
    lra.
Qed.

Lemma norm_row_terms_zero (x : vec) (T : list row) :
  np_linalg_norm (map (row_term TOL x) T) = 0 <-> Forall (row_feasible x) T.
Proof.
  rewrite norm_zero, Forall_map.
  split; intros H; eapply Forall_impl; try exact H; intros t Ht; cbn in *;
    now apply row_term_sign.
Qed.

Lemma feasible_within_rows (x : vec) (T : list row) (A : spmatrix) :
  sp_rows A = map row_a T ->
  feasible_within 0 (map row_l T) A (map row_u T) x <-> Forall (row_feasible x) T.
Proof.
  intros Hrows. unfold feasible_within. rewrite Hrows, Forall_forall. split.
  - intros H t Hin. apply In_nth_error in Hin. destruct Hin as [i Hi].
    destruct (H i (row_l t) (row_a t) (row_u t)) as [H1 H2];
      try (rewrite nth_error_map, Hi; reflexivity).
    unfold row_feasible. lra.
  - intros H i li r ui Hl Hr Hu. rewrite nth_error_map in Hl, Hr, Hu.
    destruct (nth_error T i) as [t|] eqn:Hi; [|discriminate].
    cbn in Hl, Hr, Hu. inversion Hl; inversion Hr; inversion Hu; subst.
    destruct (H t (nth_error_In _ _ Hi)) as [H1 H2]. lra.
Qed.

End Infeasibility.

(** C7 (as amended).  With floats read as real numbers and a positive
    [TOL], on an instance whose bounds
    are arrays of one entry per row of [A] and a vector [x] of one entry
    per column, [infeasibility] returns a number that is never negative,
    and that is zero exactly when [l <= A x <= u] holds in every row with
    no tolerance at all: it is positive as soon as a row is violated by
    any amount, however small. *)
Theorem infeasibility_zero_iff_exactly_feasible
  (TOL : R) (data : ProblemData.t) (lv uv x : vec) :
  0 < TOL ->
  ProblemData.l data = Arr1 lv -> ProblemData.u data = Arr1 uv ->
  length lv = length (sp_rows (ProblemData.A data)) ->
  length uv = length (sp_rows (ProblemData.A data)) ->
  subscriptable (sp_format_of (ProblemData.A data)) = true ->
  sp_ncols (ProblemData.A data) = length x ->
  exists v,
    infeasibility TOL data x = Some (inr v) /\
    0 <= v /\
    (v = 0 <-> feasible_within 0 lv (ProblemData.A data) uv x) /\
    (0 < v <-> ~ feasible_within 0 lv (ProblemData.A data) uv x).
Proof.
  intros HTOL Hl Hu Hlen_l Hlen_u Hsub Hcols.
  destruct (rows_of_instance lv _ uv Hlen_l Hlen_u) as [T [-> [Hrows ->]]].
  exists (np_linalg_norm (map (row_term TOL x) T)).
  assert (Hz : np_linalg_norm (map (row_term TOL x) T) = 0 <->
               feasible_within 0 (map row_l T) (ProblemData.A data) (map row_u T) x).
  { rewrite (feasible_within_rows x T _ Hrows). now apply norm_row_terms_zero. }
  pose proof (norm_nonneg (map (row_term TOL x) T)) as Hpos.
  split; [|split; [exact Hpos|split; [exact Hz|]]].
  - unfold infeasibility. rewrite Hl, Hu.
    now rewrite (infeasibility_1d_eq TOL T _ x Hrows Hsub Hcols).
  - split.
    + intros Hv Hf. apply Hz in Hf. lra.
    + intros Hnf. destruct (Req_dec (np_linalg_norm (map (row_term TOL x) T)) 0) as [E|E].
      * exfalso. apply Hnf, Hz, E.
      * lra.
Qed.

(** ** Concrete runs *)

(** C7, the claim as stated.  With [TOL] = 1/100 the point 201/200
    satisfies 0 <= x1 <= 1 within the tolerance, and its infeasibility is
    1/200, not zero: the violation stays below [TOL], is not normalised,
    and is counted as it is. *)
Lemma infeasibility_positive_within_tolerance :
  feasible_within (1/100) [0] (ProblemData.A lp_unit) [1] [201/200] /\
  infeasibility (1/100) lp_unit [201/200] = Some (inr (1/200)) /\
  0 < 1/200.
Proof.
  split; [|split; [|lra]].
  - intros i li r ui Hl Hr Hu. destruct i as [|i].
    + cbn in Hl, Hr, Hu. inversion Hl; inversion Hr; inversion Hu; subst.
      cbn. lra.
    + cbn in Hl. now destruct i.
  - cbn.
    replace (Rmax (1 * (201 / 200) + 0 - 1) 0) with (1 / 200)
      by (unfold Rmax; destruct (Rle_dec _ _); lra).
    replace (Rmax (0 - (1 * (201 / 200) + 0)) 0) with 0
      by (unfold Rmax; destruct (Rle_dec _ _); lra).
    unfold Rgeb.
    destruct (Rge_dec (1 / 200) (1 / 100)); [lra|].
    destruct (Rge_dec 0 (1 / 100)); [lra|].
    cbn. unfold np_linalg_norm. cbn. do 2 f_equal.
    apply sqrt_lem_1; lra.
Qed.

(** C7, a run of the amended statement: the point 1/2 of [lp_unit]. *)
Lemma infeasibility_zero_iff_exactly_feasible_witness :
  exists v,
    infeasibility (1/100) lp_unit [1/2] = Some (inr v) /\
    0 <= v /\
    (v = 0 <-> feasible_within 0 [0] (ProblemData.A lp_unit) [1] [1/2]) /\
    (0 < v <-> ~ feasible_within 0 [0] (ProblemData.A lp_unit) [1] [1/2]).
Proof.
  apply (infeasibility_zero_iff_exactly_feasible (1/100) lp_unit [0] [1] [1/2]);
    solve [lra | reflexivity].
Defined.

(** C2, a run: [solve] on the MIP [mip_one]. *)
Lemma solve_returns_primary_solution_witness :
  [1] = Results.x (solver_row_aligned mip_one) /\
  0 = Results.run_time (solver_row_aligned mip_one) /\
  (is_mip mip_one = true ->
   exists x_int data_cont,
     take (Results.x (solver_row_aligned mip_one)) (ProblemData.int_idx mip_one)
       = inr x_int /\
     continuous_restriction mip_one x_int = inr data_cont /\
     Strategy.Build [1] [1%Z; 1%Z]
       = Strategy.Build x_int (Results.active_constraints (solver_row_aligned data_cont))) /\
  (is_mip mip_one = false ->
   Strategy.Build [1] [1%Z; 1%Z]
     = Strategy.Build [] (Results.active_constraints (solver_row_aligned mip_one))).
Proof.
  apply (solve_returns_primary_solution sp_optimal solver_row_aligned
           cross_check_completes mip_one [1] 0 (Strategy.Build [1] [1%Z; 1%Z])).
  reflexivity.
Defined.

(** C9, the claim as stated.  On the infeasible instance the exception of
    [solve] is a [ValueError] made from one string, the message with the
    status; the instance is not among its arguments. *)
Lemma solve_error_carries_no_problem_data :
  exists e,
    solve sp_optimal solver_infeasible cross_check_completes lp_infeasible = inl e /\
    exn_cls e = ValueError /\
    exn_args e = [PyStr "Problem not solved. Status infeasible"] /\
    ~ carries e (PyProblemData lp_infeasible).
Proof.
  eexists. split; [reflexivity|]. repeat split.
  unfold carries. cbn. intros [H|[]]. discriminate.
Qed.

(** C9, a run of the amended statement: the infeasible instance. *)
Lemma solve_raises_iff_no_solution_present_witness :
  solve sp_optimal solver_infeasible cross_check_completes lp_infeasible
    = inl (not_solved "infeasible") /\
  forall r, solve sp_optimal solver_infeasible cross_check_completes lp_infeasible
            <> inr r.
Proof.
  pose proof (solve_raises_iff_no_solution_present sp_optimal solver_infeasible
                cross_check_completes lp_infeasible) as [Hnone [Hiff _]].
  split.
  - apply (proj2 (Hiff eq_refl)). reflexivity.
  - apply Hnone. reflexivity.
Defined.



(** * Further properties *)

(** ** solve_parametric *)

Section ParametricProperties.

Variable SOLUTION_PRESENT : list string.
Variable solver : ProblemData.t -> Results.t.
Variable cross_check : ProblemData.t -> option exn.
Variable Theta : Type.
Variable populate : Theta -> ProblemData.t -> result ProblemData.t.

Local Abbreviation psolve := (OptimizationProblem.solve SOLUTION_PRESENT solver cross_check).
Local Abbreviation step :=
  (solve_parametric_step SOLUTION_PRESENT solver cross_check Theta populate).
Local Abbreviation loop :=
  (solve_parametric_loop SOLUTION_PRESENT solver cross_check Theta populate).
Local Abbreviation parametric :=
  (OptimizationProblem.solve_parametric SOLUTION_PRESENT solver cross_check Theta populate).
Local Abbreviation samples :=
  (run_samples SOLUTION_PRESENT solver cross_check populate).

Lemma list_setitem_middle {X : Type} (done : list X) (a v : X) (rest : list X) :
  list_setitem (done ++ a :: rest) (length done) v = inr (done ++ v :: rest).
Proof.
  induction done as [|b done IH]; [reflexivity|]. cbn. now rewrite IH.
Qed.

Lemma iloc_middle {X : Type} (pre : list X) (a : X) (suf : list X) :
  iloc (pre ++ a :: suf) (length pre) = inr a.
Proof.
  unfold iloc. rewrite nth_error_app2 by lia. now rewrite Nat.sub_diag.
Qed.

(** The loop on the rows still to do, with the entries of the rows done
    filled in and the others [None]. *)
Lemma loop_samples (pre suf : list Theta) (done : list (vec * R * Strategy.t))
  (data : ProblemData.t) :
  length done = length pre ->
  loop (pre ++ suf) (seq (length pre) (length suf))
    (Batch data
       (fst (fst (batch_lists done)) ++ repeat None (length suf))
       (snd (fst (batch_lists done)) ++ repeat None (length suf))
       (snd (batch_lists done) ++ repeat None (length suf)))
  = match samples data suf with
    | inl e => inl e
    | inr (out, d) =>
        inr (Batch d (fst (fst (batch_lists (done ++ out))))
               (snd (fst (batch_lists (done ++ out))))
               (snd (batch_lists (done ++ out))))
    end.
Proof.
  revert pre done data. induction suf as [|th suf IH]; intros pre done data Hlen.
  - cbn. now rewrite !app_nil_r.
  - cbn [length seq solve_parametric_loop run_samples].
    unfold solve_parametric_step. rewrite iloc_middle.
    cbn -[OptimizationProblem.solve list_setitem batch_lists].
    destruct (populate th data) as [e|d]; [reflexivity|].
    cbn -[OptimizationProblem.solve list_setitem batch_lists].
    destruct (psolve d) as [e|[[xi ti] si]]; [reflexivity|].
    cbn -[list_setitem solve_parametric_loop run_samples].
    rewrite <- Hlen.
    rewrite <- (length_map (fun r : vec * R * Strategy.t => Some (fst (fst r))) done) at 1.
    rewrite list_setitem_middle. cbn -[list_setitem solve_parametric_loop run_samples].
    rewrite <- (length_map (fun r : vec * R * Strategy.t => Some (snd (fst r))) done) at 1.
    rewrite list_setitem_middle. cbn -[list_setitem solve_parametric_loop run_samples].
    rewrite <- (length_map (fun r : vec * R * Strategy.t => Some (snd r)) done) at 1.
    rewrite list_setitem_middle. cbn -[list_setitem solve_parametric_loop run_samples].
    specialize (IH (pre ++ [th]) (done ++ [(xi, ti, si)]) d).
    rewrite <- app_assoc in IH. cbn [app] in IH.
    replace (length (pre ++ [th])) with (S (length pre)) in IH
      by (rewrite length_app; cbn; lia).
    unfold batch_lists in IH. cbn [fst snd] in IH. rewrite !map_app in IH.
    cbn [map fst snd] in IH. rewrite <- !app_assoc in IH. cbn [app] in IH.
    unfold batch_lists. cbn [fst snd]. rewrite Hlen.
    rewrite IH by (rewrite length_app; cbn; lia).
    destruct (samples d suf) as [e|[out dfin]]; [reflexivity|].
    cbn [fst snd]. rewrite <- !app_assoc. reflexivity.
Qed.

(** [solve_parametric] is the run of the samples in the order of the rows. *)
Lemma solve_parametric_samples (data : ProblemData.t) (theta : list Theta) :
  parametric data theta
  = match samples data theta with
    | inl e => inl e
    | inr (out, d) => inr (batch_lists out, d)
    end.
Proof.
  unfold OptimizationProblem.solve_parametric.
  pose proof (loop_samples [] theta [] data eq_refl) as H.
  cbn [app length batch_lists map fst snd] in H. rewrite H.
  destruct (samples data theta) as [e|[out d]]; reflexivity.
Qed.

Lemma run_samples_length (data : ProblemData.t) (rows : list Theta)
  (out : list (vec * R * Strategy.t)) (d : ProblemData.t) :
  samples data rows = inr (out, d) -> length out = length rows.
Proof.
  revert data out d. induction rows as [|th rows IH]; intros data out d H; cbn in H.
  - inversion H; reflexivity.
  - destruct (populate th data) as [|d1]; [discriminate|].
    cbn -[OptimizationProblem.solve] in H.
    destruct (psolve d1) as [|r]; [discriminate|].
    cbn -[OptimizationProblem.solve] in H.
    destruct (samples d1 rows) as [|[out1 d2]] eqn:E; [discriminate|].
    inversion H; subst. cbn. f_equal. eapply IH; eauto.
Qed.

Lemma run_samples_app (data : ProblemData.t) (rows1 rows2 : list Theta) :
  samples data (rows1 ++ rows2)
  = match samples data rows1 with
    | inl e => inl e
    | inr (out1, d1) =>
        match samples d1 rows2 with
        | inl e => inl e
        | inr (out2, d2) => inr (out1 ++ out2, d2)
        end
    end.
Proof.
  revert data. induction rows1 as [|th rows1 IH]; intros data; cbn.
  - now destruct (samples data rows2) as [|[out2 d2]].
  - destruct (populate th data) as [|d]; [reflexivity|].
    cbn -[OptimizationProblem.solve].
    destruct (psolve d) as [|r]; [reflexivity|].
    cbn -[OptimizationProblem.solve]. rewrite IH.
    destruct (samples d rows1) as [|[out1 d1]]; [reflexivity|].
    cbn. now destruct (samples d1 rows2) as [|[out2 d2]].
Qed.

(** When [populate] does not read the data it rewrites, the output of a
    sample is the one of its row alone. *)
Lemma run_samples_nth (data : ProblemData.t) (rows : list Theta)
  (out : list (vec * R * Strategy.t)) (dfin : ProblemData.t) :
  (forall th d d', populate th d = populate th d') ->
  samples data rows = inr (out, dfin) ->
  forall i th, nth_error rows i = Some th ->
  exists d r, populate th data = inr d /\ psolve d = inr r /\ nth_error out i = Some r.
Proof.
  intros Hind. revert data out dfin.
  induction rows as [|th0 rows IH]; intros data out dfin H i th Hi.
  - now destruct i.
  - cbn in H. destruct (populate th0 data) as [|d1] eqn:Ep; [discriminate|].
    cbn -[OptimizationProblem.solve] in H.
    destruct (psolve d1) as [|r1] eqn:Es; [discriminate|].
    cbn -[OptimizationProblem.solve] in H.
    destruct (samples d1 rows) as [|[out1 d2]] eqn:E; [discriminate|].
    inversion H; subst. destruct i as [|i]; cbn in Hi.
    + inversion Hi; subst. exists d1, r1. auto.
    + destruct (IH d1 out1 dfin E i th Hi) as [d [r [Hp [Hs Hn]]]].
      exists d, r. rewrite (Hind th data d1). auto.
Qed.

(** X1.  When [solve_parametric] returns, each of the three lists has one
    entry per row of the table, and no entry is left [None]. *)
Theorem solve_parametric_fills_every_entry
  (data : ProblemData.t) (theta : list Theta)
  (xs : list (option vec)) (ts : list (option R)) (ss : list (option Strategy.t))
  (dfin : ProblemData.t) :
  parametric data theta = inr (xs, ts, ss, dfin) ->
  length xs = length theta /\ length ts = length theta /\ length ss = length theta /\
  ~ In None xs /\ ~ In None ts /\ ~ In None ss.
Proof.
  rewrite solve_parametric_samples.
  destruct (samples data theta) as [|[out d]] eqn:E; [discriminate|].
  intros H. inversion H; subst. apply run_samples_length in E.
  rewrite !length_map.
  repeat split; try exact E;
    intros Hin; apply in_map_iff in Hin; destruct Hin as [r [Hr _]]; discriminate.
Qed.

(** X2.  When [populate] does not read the data it rewrites, the entries
    at an index are what [solve] returns on the data populated from that
    row alone: they do not depend on the other rows or on their order. *)
Theorem solve_parametric_entry_depends_on_its_row
  (data : ProblemData.t) (theta : list Theta)
  (xs : list (option vec)) (ts : list (option R)) (ss : list (option Strategy.t))
  (dfin : ProblemData.t) (i : nat) (th : Theta) :
  (forall th d d', populate th d = populate th d') ->
  parametric data theta = inr (xs, ts, ss, dfin) ->
  nth_error theta i = Some th ->
  exists d x time strategy,
    populate th data = inr d /\
    psolve d = inr (x, time, strategy) /\
    nth_error xs i = Some (Some x) /\
    nth_error ts i = Some (Some time) /\
    nth_error ss i = Some (Some strategy).
Proof.
  intros Hind. rewrite solve_parametric_samples.
  destruct (samples data theta) as [|[out d]] eqn:E; [discriminate|].
  intros H Hi. inversion H; subst.
  destruct (run_samples_nth _ _ _ _ Hind E i th Hi) as [d0 [[[x t] s] [Hp [Hs Hn]]]].
  exists d0, x, t, s. rewrite !nth_error_map, Hn. cbn. auto.
Qed.

(** X3.  A table in two parts: [solve_parametric] on the whole table is
    [solve_parametric] on the first part, then on the second part from the
    data the first left, with the lists joined; an exception of either part
    is the exception of the whole. *)
Theorem solve_parametric_app (data : ProblemData.t) (theta1 theta2 : list Theta) :
  parametric data (theta1 ++ theta2)
  = match parametric data theta1 with
    | inl e => inl e
    | inr (xs1, ts1, ss1, d1) =>
        match parametric d1 theta2 with
        | inl e => inl e
        | inr (xs2, ts2, ss2, d2) => inr (xs1 ++ xs2, ts1 ++ ts2, ss1 ++ ss2, d2)
        end
    end.
Proof.
  rewrite !solve_parametric_samples, run_samples_app.
  destruct (samples data theta1) as [|[out1 d1]]; [reflexivity|].
  rewrite solve_parametric_samples.
  destruct (samples d1 theta2) as [|[out2 d2]]; [reflexivity|].
  unfold batch_lists. now rewrite !map_app.
Qed.

(** X4.  The first sample that fails ends the batch: when the rows before
    a row are solved and that row makes [populate] or [solve] raise,
    [solve_parametric] raises the same exception and returns no list,
    whatever rows follow. *)
Theorem solve_parametric_aborts_on_first_failure
  (data : ProblemData.t) (theta1 theta2 : list Theta) (th : Theta)
  (xs : list (option vec)) (ts : list (option R)) (ss : list (option Strategy.t))
  (d1 : ProblemData.t) (e : exn) :
  parametric data theta1 = inr (xs, ts, ss, d1) ->
  (populate th d1 = inl e \/
   exists d, populate th d1 = inr d /\ psolve d = inl e) ->
  parametric data (theta1 ++ th :: theta2) = inl e.
Proof.
  intros H1 Hfail. rewrite solve_parametric_samples in *. rewrite run_samples_app.
  destruct (samples data theta1) as [|[out1 d1']]; [discriminate|].
  inversion H1; subst. cbn -[OptimizationProblem.solve].
  destruct Hfail as [Hp|[d [Hp Hs]]]; rewrite Hp; [reflexivity|].
  cbn -[OptimizationProblem.solve]. now rewrite Hs.
Qed.

End ParametricProperties.

(** X1, a run: two rows on [lp_unit]. *)
Lemma solve_parametric_fills_every_entry_witness :
  length [Some [1]; Some [2]] = length [[1]; [2]] /\
  length [Some 0; Some 0] = length [[1]; [2]] /\
  length [Some (Strategy.Build [] [0%Z]); Some (Strategy.Build [] [0%Z])]
    = length [[1]; [2]] /\
  ~ In None [Some [1]; Some [2]] /\ ~ In None [Some 0; Some 0] /\
  ~ In None [Some (Strategy.Build [] [0%Z]); Some (Strategy.Build [] [0%Z])].
Proof.
  apply (solve_parametric_fills_every_entry sp_optimal solver_echo
           cross_check_completes vec populate_cost lp_unit [[1]; [2]] _ _ _
           (ProblemData.Build [2] (Arr1 [0]) (SpMatrix csc 1 [[1]]) (Arr1 [1]) [])).
  reflexivity.
Defined.

(** X2, a run: the second row of a table on [lp_unit]. *)
Lemma solve_parametric_entry_depends_on_its_row_witness :
  exists d x time strategy,
    populate_cost [2] lp_unit = inr d /\
    solve sp_optimal solver_echo cross_check_completes d = inr (x, time, strategy) /\
    nth_error [Some [1]; Some [2]] 1 = Some (Some x) /\
    nth_error [Some 0; Some 0] 1 = Some (Some time) /\
    nth_error [Some (Strategy.Build [] [0%Z]); Some (Strategy.Build [] [0%Z])] 1
      = Some (Some strategy).
Proof.
  apply (solve_parametric_entry_depends_on_its_row sp_optimal solver_echo
           cross_check_completes vec populate_cost lp_unit [[1]; [2]] _ _ _
           (ProblemData.Build [2] (Arr1 [0]) (SpMatrix csc 1 [[1]]) (Arr1 [1]) [])).
  - reflexivity.
  - reflexivity.
  - reflexivity.
Defined.

(** X4, a run: the second of three rows has an empty cost vector, for
    which the adapter reports no solution. *)
Lemma solve_parametric_aborts_on_first_failure_witness :
  solve_parametric sp_optimal solver_echo cross_check_completes vec populate_cost
    lp_unit ([[1]] ++ [] :: [[2]])
  = inl (not_solved "infeasible").
Proof.
  apply (solve_parametric_aborts_on_first_failure sp_optimal solver_echo
           cross_check_completes vec populate_cost lp_unit [[1]] [[2]] []
           [Some [1]] [Some 0] [Some (Strategy.Build [] [0%Z])]
           (ProblemData.Build [1] (Arr1 [0]) (SpMatrix csc 1 [[1]]) (Arr1 [1]) [])).
  - reflexivity.
  - right. eexists. split; reflexivity.
Defined.

(** ** solve: when it fails and when it succeeds *)

Lemma norm_index_valid (n : nat) (i : Z) :
  valid_index n i <-> exists k, norm_index n i = Some k /\ (k < n)%nat.
Proof.
  unfold valid_index, norm_index. split.
  - intros [Hlo Hhi].
    destruct ((0 <=? i) && (i <? Z.of_nat n))%Z eqn:E1.
    + apply andb_prop in E1. destruct E1 as [E1 E2].
      exists (Z.to_nat i). split; [reflexivity|]. lia.
    + assert (Hneg : (i < 0)%Z).
      { apply andb_false_iff in E1. destruct E1 as [E1|E1]; lia. }
      assert (E2 : ((- Z.of_nat n <=? i) && (i <? 0))%Z = true)
        by (apply andb_true_intro; split; lia).
      rewrite E2. exists (Z.to_nat (i + Z.of_nat n)). split; [reflexivity|]. lia.
  - intros [k [H Hk]].
    destruct ((0 <=? i) && (i <? Z.of_nat n))%Z eqn:E1.
    + apply andb_prop in E1. lia.
    + destruct ((- Z.of_nat n <=? i) && (i <? 0))%Z eqn:E2; [|discriminate].
      apply andb_prop in E2. lia.
Qed.

Lemma take_succeeds_iff {X : Type} (xs : list X) (idx : list Z) :
  (exists r, take xs idx = inr r) <-> Forall (valid_index (length xs)) idx.
Proof.
  induction idx as [|i rest IH]; cbn.
  - split; [constructor|]. intros _. now exists [].
  - split.
    + intros [r H].
      destruct (norm_index (length xs) i) as [k|] eqn:Ek; [|discriminate].
      destruct (nth_error xs k) as [a|] eqn:Ea; [|discriminate].
      destruct (take xs rest) as [|r'] eqn:Er; [discriminate|].
      constructor.
      * apply norm_index_valid. exists k. split; [assumption|].
        apply nth_error_Some. congruence.
      * apply IH. now exists r'.
    + intros H. inversion H as [|? ? Hi Hrest]; subst.
      apply norm_index_valid in Hi. destruct Hi as [k [Ek Hk]]. rewrite Ek.
      destruct (nth_error xs k) as [a|] eqn:Ea.
      * apply IH in Hrest. destruct Hrest as [r' Hr]. rewrite Hr. now exists (a :: r').
      * apply nth_error_None in Ea. lia.
Qed.

Lemma spa_eye_rows (n : nat) (f : sp_format) : length (sp_rows (spa_eye n f)) = n.
Proof. cbn. now rewrite length_map, length_seq. Qed.

(** The restriction is built when the indices address a variable, [A] has
    one column per variable and the bounds are one-axis arrays. *)
Lemma continuous_restriction_succeeds_iff (data : ProblemData.t) (x_int : vec) :
  (exists dc, continuous_restriction data x_int = inr dc) <->
  Forall (valid_index (length (ProblemData.c data))) (ProblemData.int_idx data) /\
  sp_ncols (ProblemData.A data) = length (ProblemData.c data) /\
  (exists lv, ProblemData.l data = Arr1 lv) /\
  (exists uv, ProblemData.u data = Arr1 uv).
Proof.
  unfold continuous_restriction, spa_getitem_rows.
  cbn -[take np_concatenate spa_eye].
  pose proof (take_succeeds_iff
                (sp_rows (spa_eye (length (ProblemData.c data)) csc))
                (ProblemData.int_idx data)) as Ht.
  rewrite spa_eye_rows in Ht.
  destruct (take _ _) as [e|fix_rows].
  { split.
    - intros [dc H]. discriminate.
    - intros [Hidx _]. apply Ht in Hidx. destruct Hidx as [r Hr]. discriminate. }
  assert (Hidx : Forall (valid_index (length (ProblemData.c data)))
                   (ProblemData.int_idx data)) by (apply Ht; eauto).
  cbn [spa_eye sp_format_of sp_ncols sp_rows subscriptable].
  cbn -[take np_concatenate spa_eye]. rewrite Nat.eqb_refl.
  cbn -[take np_concatenate spa_eye].
  destruct (Nat.eqb_spec (length (ProblemData.c data)) (sp_ncols (ProblemData.A data)))
    as [Hcols|Hcols].
  2:{ split.
      - intros [dc H]. discriminate.
      - intros [_ [Hc _]]. congruence. }
  cbn -[take np_concatenate spa_eye].
  destruct (ProblemData.u data) as [uv|ku urows] eqn:Eu.
  2:{ split.
      - intros [dc H]. discriminate.
      - intros [_ [_ [_ [uv Huv]]]]. discriminate. }
  cbn -[take spa_eye].
  destruct (ProblemData.l data) as [lv|kl lrows] eqn:El.
  2:{ split.
      - intros [dc H]. discriminate.
      - intros [_ [_ [[lv Hlv] _]]]. discriminate. }
  cbn. split; [|eauto]. intros _. repeat split; eauto.
Qed.

Lemma continuous_restriction_error_class (data : ProblemData.t) (x_int : vec) (e : exn) :
  continuous_restriction data x_int = inl e ->
  e = Exn IndexError [] \/ e = Exn ValueError [].
Proof.
  unfold continuous_restriction.
  cbn -[spa_getitem_rows spa_vstack np_concatenate spa_eye].
  destruct (spa_getitem_rows _ _) as [e1|fix_rows] eqn:E1.
  { intros H; inversion H; subst. left. unfold spa_getitem_rows in E1. cbn -[take] in E1.
    destruct (take _ _) as [e2|] eqn:E2; [|discriminate].
    inversion E1; subst. now apply take_error in E2. }
  destruct (spa_vstack _) as [e2|A_cont] eqn:E2.
  { intros H; inversion H; subst. right. unfold spa_vstack in E2.
    destruct (spa_vstack_rows _ _) as [e3|] eqn:E3; [|discriminate].
    inversion E2; subst. now apply spa_vstack_rows_error in E3. }
  destruct (np_concatenate (ProblemData.u data) _) as [e3|] eqn:E3.
  { intros H; inversion H; subst. right.
    destruct (ProblemData.u data); cbn in E3; [discriminate|now inversion E3]. }
  destruct (np_concatenate (ProblemData.l data) _) as [e4|] eqn:E4; [|discriminate].
  intros H; inversion H; subst. right.
  destruct (ProblemData.l data); cbn in E4; [discriminate|now inversion E4].
Qed.

Section SolveOutcomes.

Variable SOLUTION_PRESENT : list string.
Variable solver : ProblemData.t -> Results.t.
Variable cross_check : ProblemData.t -> option exn.

Local Abbreviation solve' := (OptimizationProblem.solve SOLUTION_PRESENT solver cross_check).

(** X5.  Every exception of [solve] is of one of three kinds.  On a status
    without a solution it is the exception of the cross-check when that
    raises, and the [ValueError] carrying the status otherwise.  On a
    status with a solution it is an [IndexError] or a [ValueError] raised
    while the continuous restriction of a MIP is built: on a continuous
    instance [solve] does not raise. *)
Theorem solve_error_classification (data : ProblemData.t) (e : exn) :
  solve' data = inl e ->
  (py_in (Results.status (solver data)) SOLUTION_PRESENT = false /\
   (cross_check data = Some e \/
    (cross_check data = None /\ e = not_solved (Results.status (solver data))))) \/
  (py_in (Results.status (solver data)) SOLUTION_PRESENT = true /\
   is_mip data = true /\ (e = Exn IndexError [] \/ e = Exn ValueError [])).
Proof.
  intros H. destruct (py_in _ SOLUTION_PRESENT) eqn:Hin.
  - right. split; [reflexivity|].
    rewrite (solve_present _ _ _ _ Hin) in H.
    destruct (is_mip data); [|discriminate]. split; [reflexivity|].
    cbn -[take continuous_restriction] in H.
    destruct (take _ _) as [e1|x_int] eqn:E1.
    { inversion H; subst. left. now apply take_error in E1. }
    destruct (continuous_restriction data x_int) as [e2|dc] eqn:E2; [|discriminate].
    inversion H; subst. now apply continuous_restriction_error_class in E2.
  - left. split; [reflexivity|].
    rewrite (solve_absent _ _ _ _ Hin) in H. inversion H; subst.
    destruct (cross_check data); [now left|now right].
Qed.

(** X6.  On a MIP [solve] returns exactly when the status has a solution,
    every integer index addresses an entry of the solution vector and a
    variable (negative indices counting from the end), [A] has one column
    per entry of [c], and [l] and [u] are one-axis arrays. *)
Theorem solve_mip_succeeds_iff (data : ProblemData.t) :
  is_mip data = true ->
  ((exists r, solve' data = inr r) <->
   py_in (Results.status (solver data)) SOLUTION_PRESENT = true /\
   Forall (valid_index (length (Results.x (solver data)))) (ProblemData.int_idx data) /\
   Forall (valid_index (length (ProblemData.c data))) (ProblemData.int_idx data) /\
   sp_ncols (ProblemData.A data) = length (ProblemData.c data) /\
   (exists lv, ProblemData.l data = Arr1 lv) /\
   (exists uv, ProblemData.u data = Arr1 uv)).
Proof.
  intros Hmip. destruct (py_in _ SOLUTION_PRESENT) eqn:Hin.
  2:{ rewrite (solve_absent _ _ _ _ Hin). split.
      - intros [r H]. discriminate.
      - intros [H _]. discriminate. }
  rewrite (solve_present _ _ _ _ Hin), Hmip.
  cbn -[take continuous_restriction].
  pose proof (take_succeeds_iff (Results.x (solver data)) (ProblemData.int_idx data)) as Ht.
  destruct (take _ _) as [e|x_int].
  { split.
    - intros [r H]. discriminate.
    - intros [_ [Hx _]]. apply Ht in Hx. destruct Hx as [r Hr]. discriminate. }
  pose proof (continuous_restriction_succeeds_iff data x_int) as Hc.
  destruct (continuous_restriction data x_int) as [e|dc].
  { split.
    - intros [r H]. discriminate.
    - intros [_ [_ Hrest]]. apply Hc in Hrest. destruct Hrest as [dc H]. discriminate. }
  split.
  - intros _. split; [reflexivity|]. split; [apply Ht; eauto|]. apply Hc. eauto.
  - intros _. eauto.
Qed.

End SolveOutcomes.

(** X5, a run: the infeasible instance. *)
Lemma solve_error_classification_witness :
  (py_in (Results.status (solver_infeasible lp_infeasible)) sp_optimal = false /\
   (cross_check_completes lp_infeasible = Some (not_solved "infeasible") \/
    (cross_check_completes lp_infeasible = None /\
     not_solved "infeasible"
     = not_solved (Results.status (solver_infeasible lp_infeasible))))) \/
  (py_in (Results.status (solver_infeasible lp_infeasible)) sp_optimal = true /\
   is_mip lp_infeasible = true /\
   (not_solved "infeasible" = Exn IndexError [] \/
    not_solved "infeasible" = Exn ValueError [])).
Proof.
  apply (solve_error_classification sp_optimal solver_infeasible cross_check_completes
           lp_infeasible (not_solved "infeasible")).
  reflexivity.
Defined.

(** X6, a run: [mip_one]. *)
Lemma solve_mip_succeeds_iff_witness :
  (exists r, solve sp_optimal solver_row_aligned cross_check_completes mip_one = inr r) <->
  py_in (Results.status (solver_row_aligned mip_one)) sp_optimal = true /\
  Forall (valid_index (length (Results.x (solver_row_aligned mip_one))))
    (ProblemData.int_idx mip_one) /\
  Forall (valid_index (length (ProblemData.c mip_one))) (ProblemData.int_idx mip_one) /\
  sp_ncols (ProblemData.A mip_one) = length (ProblemData.c mip_one) /\
  (exists lv, ProblemData.l mip_one = Arr1 lv) /\
  (exists uv, ProblemData.u mip_one = Arr1 uv).
Proof.
  apply (solve_mip_succeeds_iff sp_optimal solver_row_aligned cross_check_completes mip_one).
  reflexivity.
Defined.

(** An index out of range: the [IndexError] of line 134. *)
Example solve_mip_bad_index :
  solve sp_optimal solver_row_aligned cross_check_completes mip_bad_index
  = throw IndexError.
Proof. reflexivity. Qed.

(** ** The continuous restriction *)

Lemma dot_indicator (x : vec) (s k : nat) (a : R) :
  (s <= k)%nat -> nth_error x (k - s) = Some a ->
  dot (map (fun j => if (k =? j)%nat then 1 else 0) (seq s (length x))) x = a.
Proof.
  revert s. induction x as [|b x IH]; intros s Hs Hn.
  - now destruct (k - s)%nat.
  - cbn [length seq map dot]. destruct (Nat.eqb_spec k s) as [->|Hks].
    + rewrite Nat.sub_diag in Hn. inversion Hn; subst.
      rewrite dot_zero_left; [lra|].
      apply Forall_map, Forall_forall. intros j Hj. apply in_seq in Hj.
      destruct (Nat.eqb_spec s j); [lia|reflexivity].
    + rewrite (IH (S s)); [lra|lia|].
      replace (k - s)%nat with (S (k - S s)) in Hn by lia. exact Hn.
Qed.

Lemma dot_unit_row (x : vec) (k : nat) (a : R) :
  nth_error x k = Some a -> dot (unit_row (length x) k) x = a.
Proof.
  intros H. apply dot_indicator; [lia|]. now rewrite Nat.sub_0_r.
Qed.

Lemma spa_eye_nth (n k : nat) (f : sp_format) (r : vec) :
  nth_error (sp_rows (spa_eye n f)) k = Some r -> r = unit_row n k.
Proof.
  cbn -[unit_row]. rewrite nth_error_map, nth_error_seq.
  destruct (k <? n)%nat; [|discriminate].
  cbn -[unit_row]. intros H; now inversion H.
Qed.

(** The rows selected from the identity, applied to [x], give the entries
    selected from [x]. *)
Lemma take_eye_dot (x : vec) (idx : list Z) (f : sp_format) (x_int : vec) (F : list vec) :
  take x idx = inr x_int ->
  take (sp_rows (spa_eye (length x) f)) idx = inr F ->
  map (fun r => dot r x) F = x_int.
Proof.
  revert x_int F. induction idx as [|i rest IH]; intros x_int F Hx HF.
  - cbn in Hx, HF. inversion Hx; inversion HF; reflexivity.
  - cbn -[spa_eye] in Hx, HF. rewrite spa_eye_rows in HF.
    destruct (norm_index (length x) i) as [k|]; [|discriminate].
    destruct (nth_error x k) as [a|] eqn:Ea; [|discriminate].
    destruct (nth_error (sp_rows _) k) as [r|] eqn:Er; [|discriminate].
    destruct (take x rest) as [|xr]; [discriminate|].
    destruct (take (sp_rows _) rest) as [|Fr]; [discriminate|].
    cbn in Hx, HF. inversion Hx; inversion HF; subst. cbn.
    apply spa_eye_nth in Er. subst r.
    rewrite (dot_unit_row x k a Ea). f_equal. now apply IH.
Qed.

(** X7.  The continuous restriction keeps the cost vector, has no integer
    index, and extends the instance by one row per integer index: a row
    of the identity, with the value read from [x] as lower and as upper
    bound.  Each added row holds at [x] with equality, so a point [x]
    that is feasible for the instance (within a tolerance) is feasible
    for the restriction built from it. *)
Theorem continuous_restriction_holds_at_solution
  (data data_cont : ProblemData.t) (x x_int : vec) :
  length x = length (ProblemData.c data) ->
  take x (ProblemData.int_idx data) = inr x_int ->
  continuous_restriction data x_int = inr data_cont ->
  exists lv uv F,
    ProblemData.l data = Arr1 lv /\ ProblemData.u data = Arr1 uv /\
    ProblemData.c data_cont = ProblemData.c data /\
    ProblemData.int_idx data_cont = [] /\
    sp_rows (ProblemData.A data_cont) = sp_rows (ProblemData.A data) ++ F /\
    ProblemData.l data_cont = Arr1 (lv ++ x_int) /\
    ProblemData.u data_cont = Arr1 (uv ++ x_int) /\
    map (fun r => dot r x) F = x_int /\
    (forall tol, 0 <= tol ->
       length lv = length (sp_rows (ProblemData.A data)) ->
       length uv = length (sp_rows (ProblemData.A data)) ->
       feasible_within tol lv (ProblemData.A data) uv x ->
       feasible_within tol (lv ++ x_int) (ProblemData.A data_cont) (uv ++ x_int) x).
Proof.
  intros Hlen Hx. unfold continuous_restriction, spa_getitem_rows.
  cbn [spa_eye sp_format_of sp_ncols sp_rows subscriptable].
  cbn -[take np_concatenate spa_eye].
  destruct (take (map _ _) _) as [|F] eqn:EF; [discriminate|].
  cbn -[take np_concatenate spa_eye]. rewrite Nat.eqb_refl.
  cbn -[take np_concatenate spa_eye].
  destruct (_ =? _)%nat; [|discriminate].
  cbn -[take np_concatenate spa_eye].
  destruct (ProblemData.u data) as [uv|] eqn:Eu; [|discriminate].
  destruct (ProblemData.l data) as [lv|] eqn:El; [|discriminate].
  cbn. intros H. inversion H; subst. clear H. cbn.
  assert (HF : map (fun r => dot r x) F = x_int).
  { apply (take_eye_dot x (ProblemData.int_idx data) csc); [assumption|].
    rewrite Hlen. exact EF. }
  exists lv, uv, F. rewrite app_nil_r.
  repeat (split; [solve [auto]|]).
  intros tol Htol Hl Hu Hfeas i li r ui Hli Hr Hui. cbn in Hr.
  destruct (Nat.lt_ge_cases i (length (sp_rows (ProblemData.A data)))) as [Hi|Hi].
  - rewrite nth_error_app1 in Hli, Hr, Hui by lia. eauto.
  - rewrite nth_error_app2 in Hli, Hr, Hui by lia.
    rewrite Hl in Hli. rewrite Hu in Hui.
    rewrite <- HF, nth_error_map, Hr in Hli, Hui. cbn in Hli, Hui.
    inversion Hli; inversion Hui; subst. lra.
Qed.

(** X7, a run: [mip_one] at the point the adapter reports. *)
Lemma continuous_restriction_holds_at_solution_witness :
  exists lv uv F,
    ProblemData.l mip_one = Arr1 lv /\ ProblemData.u mip_one = Arr1 uv /\
    ProblemData.c
      (ProblemData.Build [-1] (Arr1 [0; 1]) (SpMatrix coo 1 [[1]; [1]]) (Arr1 [1; 1]) [])
      = ProblemData.c mip_one /\
    ProblemData.int_idx
      (ProblemData.Build [-1] (Arr1 [0; 1]) (SpMatrix coo 1 [[1]; [1]]) (Arr1 [1; 1]) [])
      = [] /\
    sp_rows (ProblemData.A
      (ProblemData.Build [-1] (Arr1 [0; 1]) (SpMatrix coo 1 [[1]; [1]]) (Arr1 [1; 1]) []))
      = sp_rows (ProblemData.A mip_one) ++ F /\
    ProblemData.l
      (ProblemData.Build [-1] (Arr1 [0; 1]) (SpMatrix coo 1 [[1]; [1]]) (Arr1 [1; 1]) [])
      = Arr1 (lv ++ [1]) /\
    ProblemData.u
      (ProblemData.Build [-1] (Arr1 [0; 1]) (SpMatrix coo 1 [[1]; [1]]) (Arr1 [1; 1]) [])
      = Arr1 (uv ++ [1]) /\
    map (fun r => dot r [1]) F = [1] /\
    (forall tol, 0 <= tol ->
       length lv = length (sp_rows (ProblemData.A mip_one)) ->
       length uv = length (sp_rows (ProblemData.A mip_one)) ->
       feasible_within tol lv (ProblemData.A mip_one) uv [1] ->
       feasible_within tol (lv ++ [1])
         (ProblemData.A
            (ProblemData.Build [-1] (Arr1 [0; 1]) (SpMatrix coo 1 [[1]; [1]])
               (Arr1 [1; 1]) []))
         (uv ++ [1]) [1]).
Proof.
  apply (continuous_restriction_holds_at_solution mip_one _ [1] [1]); reflexivity.
Defined.

(** ** solve_with_strategy: the check and the reduced problem *)

Lemma fold_Rmax_le (rest : vec) (a b : R) :
  fold_left Rmax rest a <= b <-> a <= b /\ Forall (fun v => v <= b) rest.
Proof.
  revert a. induction rest as [|v rest IH]; intros a; cbn.
  - split; [intros H; split; [assumption|constructor]|tauto].
  - rewrite IH. split.
    + intros [H1 H2]. pose proof (Rmax_l a v). pose proof (Rmax_r a v).
      split; [lra|]. constructor; [lra|assumption].
    + intros [H1 H2]. inversion H2; subst. split; [|assumption].
      now apply Rmax_lub.
Qed.

Lemma fold_Rmin_ge (rest : vec) (a b : R) :
  b <= fold_left Rmin rest a <-> b <= a /\ Forall (fun v => b <= v) rest.
Proof.
  revert a. induction rest as [|v rest IH]; intros a; cbn.
  - split; [intros H; split; [assumption|constructor]|tauto].
  - rewrite IH. split.
    + intros [H1 H2]. pose proof (Rmin_l a v). pose proof (Rmin_r a v).
      split; [lra|]. constructor; [lra|assumption].
    + intros [H1 H2]. inversion H2; subst. split; [|assumption].
      now apply Rmin_glb.
Qed.

(** X8.  What the assertions of lines 222-224 decide on a MIP: an empty
    [int_vars] raises the [ValueError] of [np.max], the check passes
    exactly when every entry lies between 0 and the number of rows (both
    included), and any other [int_vars] raises an [AssertionError]. *)
Theorem check_int_vars_outcome (data : ProblemData.t) (s : Strategy.t) :
  is_mip data = true ->
  (Strategy.int_vars s = [] /\ check_int_vars data s = throw ValueError) \/
  (Strategy.int_vars s <> [] /\
   Forall (accepted_int_var (np_len (ProblemData.l data))) (Strategy.int_vars s) /\
   check_int_vars data s = inr tt) \/
  (Strategy.int_vars s <> [] /\
   ~ Forall (accepted_int_var (np_len (ProblemData.l data))) (Strategy.int_vars s) /\
   check_int_vars data s = throw AssertionError).
Proof.
  intros Hmip. unfold check_int_vars. rewrite Hmip.
  destruct (Strategy.int_vars s) as [|a rest]; [left; auto|right].
  cbn. unfold Rleb, Rgeb.
  set (m := INR (np_len (ProblemData.l data))).
  destruct (Rle_dec (fold_left Rmax rest a) m) as [Hmax|Hmax]; cbn.
  - destruct (Rge_dec (fold_left Rmin rest a) 0) as [Hmin|Hmin]; cbn.
    + left. split; [discriminate|]. split; [|reflexivity].
      apply fold_Rmax_le in Hmax. apply Rge_le, fold_Rmin_ge in Hmin.
      destruct Hmax as [Ha1 Hr1], Hmin as [Ha2 Hr2].
      constructor; [split; assumption|].
      rewrite Forall_forall in *. intros v Hv. split; auto.
    + right. split; [discriminate|]. split; [|reflexivity].
      intros Hall. apply Hmin, Rle_ge, fold_Rmin_ge.
      inversion Hall as [|? ? [Ha _] Hr]; subst. split; [assumption|].
      eapply Forall_impl; [|exact Hr]. intros v [Hv _]. exact Hv.
  - right. split; [discriminate|]. split; [|reflexivity].
    intros Hall. apply Hmax, fold_Rmax_le.
    inversion Hall as [|? ? [_ Ha] Hr]; subst. split; [assumption|].
    eapply Forall_impl; [|exact Hr]. intros v [_ Hv]. exact Hv.
Qed.

Lemma check_int_vars_classes (data : ProblemData.t) (s : Strategy.t) :
  check_int_vars data s = inr tt \/
  check_int_vars data s = throw ValueError \/
  check_int_vars data s = throw AssertionError.
Proof.
  unfold check_int_vars. destruct (is_mip data); [|now left].
  destruct (Strategy.int_vars s) as [|a rest]; [right; now left|].
  cbn. destruct (Rleb _ _); cbn; [|right; now right].
  destruct (Rgeb _ _); cbn; [now left|right; now right].
Qed.

(** X9.  On a MIP [solve_with_strategy] never returns: it raises a
    [ValueError], an [AssertionError] or a [TypeError], whatever the
    strategy and the adapter. *)
Theorem solve_with_strategy_raises_on_mip
  (SOLUTION_PRESENT : list string) (solver : ProblemData.t -> Results.t)
  (cross_check : ProblemData.t -> option exn)
  (data : ProblemData.t) (s : Strategy.t) :
  is_mip data = true ->
  solve_with_strategy SOLUTION_PRESENT solver cross_check data s = throw ValueError \/
  solve_with_strategy SOLUTION_PRESENT solver cross_check data s = throw AssertionError \/
  solve_with_strategy SOLUTION_PRESENT solver cross_check data s = throw TypeError.
Proof.
  intros Hmip. unfold OptimizationProblem.solve_with_strategy.
  destruct (check_int_vars_classes data s) as [H|[H|H]]; rewrite H.
  - right; right. rewrite (reduced_problem_mip _ _ Hmip). reflexivity.
  - now left.
  - right; now left.
Qed.

(** X10.  On a continuous instance [solve_with_strategy] never returns
    either, whatever the strategy and the adapter: line 240 asks [A] for
    rows with the tuple of [np.where], which raises an [IndexError] on a
    CSC or CSR matrix and a [TypeError] on a matrix of another format,
    before any reduced problem is handed to the solver. *)
Theorem solve_with_strategy_raises_on_continuous
  (SOLUTION_PRESENT : list string) (solver : ProblemData.t -> Results.t)
  (cross_check : ProblemData.t -> option exn)
  (data : ProblemData.t) (s : Strategy.t) :
  is_mip data = false ->
  solve_with_strategy SOLUTION_PRESENT solver cross_check data s
  = if subscriptable (sp_format_of (ProblemData.A data))
    then throw IndexError else throw TypeError.
Proof.
  intros Hmip. unfold OptimizationProblem.solve_with_strategy, check_int_vars.
  rewrite Hmip, (reduced_problem_continuous_raises _ _ Hmip).
  now destruct (subscriptable _).
Qed.

(** ** infeasibility: the scale of the rows *)

Lemma dot_scale (alpha : R) (r x : vec) :
  dot (scale_vec alpha r) x = alpha * dot r x.
Proof.
  revert x. induction r as [|a r IH]; intros x; cbn; [lra|].
  destruct x as [|b x]; [lra|]. rewrite IH. lra.
Qed.

Lemma dot_scale_both (alpha : R) (r : vec) :
  dot (scale_vec alpha r) (scale_vec alpha r) = (alpha * alpha) * dot r r.
Proof.
  unfold scale_vec. induction r as [|a r IH]; cbn [map dot]; [lra|].
  rewrite IH. lra.
Qed.

Lemma norm_scale (alpha : R) (r : vec) :
  0 <= alpha -> np_linalg_norm (scale_vec alpha r) = alpha * np_linalg_norm r.
Proof.
  intros H. unfold np_linalg_norm. rewrite dot_scale_both.
  rewrite sqrt_mult_alt by nra. now rewrite sqrt_square.
Qed.

Lemma Rmax_scale (alpha p q : R) :
  0 <= alpha -> Rmax (alpha * p) (alpha * q) = alpha * Rmax p q.
Proof. intros H. now apply RmaxRmult. Qed.

Section Scaling.

Variable TOL : R.
Hypothesis TOL_pos : 0 < TOL.
Variable alpha : R.
Hypothesis alpha_pos : 0 < alpha.

Lemma normalized_scale (r x : vec) (b d : R) :
  (d = dot r x - b \/ d = b - dot r x) ->
  normalised_both TOL alpha (Rmax d 0) ->
  normalized TOL (np_linalg_norm (scale_vec alpha r)) (alpha * b) (Rmax (alpha * d) 0)
  = normalized TOL (np_linalg_norm r) b (Rmax d 0).
Proof.
  intros Hd Hv.
  assert (Hs : Rmax (alpha * d) 0 = alpha * Rmax d 0).
  { rewrite <- (Rmax_scale alpha d 0) by lra. now rewrite Rmult_0_r. }
  unfold normalized, Rgeb. rewrite Hs, norm_scale by lra.
  rewrite Rabs_mult, (Rabs_pos_eq alpha) by lra. rewrite Rmax_scale by lra.
  destruct Hv as [Hv|[Hv1 Hv2]].
  - rewrite Hv, Rmult_0_r. destruct (Rge_dec 0 TOL); [lra|reflexivity].
  - assert (Hpos : 0 < Rmax (np_linalg_norm r) (Rabs b)).
    { apply (divisor_positive TOL TOL_pos r x b (Rmax d 0)); [|assumption].
      destruct Hd as [->| ->]; auto. }
    destruct (Rge_dec (alpha * Rmax d 0) TOL); [|lra].
    destruct (Rge_dec (Rmax d 0) TOL); [|lra].
    field. split; lra.
Qed.

Lemma row_term_scale (x : vec) (t : row) :
  normalised_both TOL alpha (over x t) ->
  normalised_both TOL alpha (under x t) ->
  row_term TOL x (scale_row alpha t) = row_term TOL x t.
Proof.
  intros Ho Hu. unfold row_term, over, under, scale_row, row_l, row_a, row_u in *.
  cbn [fst snd]. rewrite dot_scale.
  replace (alpha * dot (snd (fst t)) x - alpha * snd t)
    with (alpha * (dot (snd (fst t)) x - snd t)) by lra.
  replace (alpha * fst (fst t) - alpha * dot (snd (fst t)) x)
    with (alpha * (fst (fst t) - dot (snd (fst t)) x)) by lra.
  rewrite (normalized_scale (snd (fst t)) x (snd t)) by auto.
  rewrite (normalized_scale (snd (fst t)) x (fst (fst t))) by auto.
  reflexivity.
Qed.

End Scaling.

(** X13.  The normalisation makes the metric independent of the scale of
    the rows: multiplying every row of [A] with its two bounds by a
    positive number leaves [infeasibility] unchanged, provided each
    violation is either zero or reaches [TOL] both before and after (a
    violation below [TOL] is not normalised and scales with the row). *)
Theorem infeasibility_scale_invariant
  (TOL alpha : R) (data : ProblemData.t) (lv uv x : vec) :
  0 < TOL -> 0 < alpha ->
  ProblemData.l data = Arr1 lv -> ProblemData.u data = Arr1 uv ->
  length lv = length (sp_rows (ProblemData.A data)) ->
  length uv = length (sp_rows (ProblemData.A data)) ->
  subscriptable (sp_format_of (ProblemData.A data)) = true ->
  sp_ncols (ProblemData.A data) = length x ->
  (forall i li r ui,
     nth_error lv i = Some li -> nth_error (sp_rows (ProblemData.A data)) i = Some r ->
     nth_error uv i = Some ui ->
     normalised_both TOL alpha (Rmax (dot r x - ui) 0) /\
     normalised_both TOL alpha (Rmax (li - dot r x) 0)) ->
  infeasibility TOL (scale_rows alpha data) x = infeasibility TOL data x.
Proof.
  intros HTOL Halpha Hl Hu Hlen_l Hlen_u Hsub Hcols Hviol.
  destruct (rows_of_instance lv _ uv Hlen_l Hlen_u) as [T [-> [Hrows ->]]].
  unfold infeasibility, scale_rows. cbn [ProblemData.l ProblemData.u ProblemData.A].
  rewrite Hl, Hu. cbn [scale_array]. f_equal.
  rewrite (infeasibility_1d_eq TOL T _ x Hrows Hsub Hcols).
  assert (E1 : scale_vec alpha (map row_l T) = map row_l (map (scale_row alpha) T)).
  { unfold scale_vec. rewrite !map_map. reflexivity. }
  assert (E2 : scale_vec alpha (map row_u T) = map row_u (map (scale_row alpha) T)).
  { unfold scale_vec. rewrite !map_map. reflexivity. }
  rewrite E1, E2.
  rewrite (infeasibility_1d_eq TOL (map (scale_row alpha) T) _ x).
  - do 2 f_equal. rewrite map_map. apply map_ext_in. intros t Ht.
    apply In_nth_error in Ht. destruct Ht as [i Hi].
    destruct (Hviol i (row_l t) (row_a t) (row_u t)) as [Ho Hun];
      try (rewrite ?Hrows, nth_error_map, Hi; reflexivity).
    now apply row_term_scale.
  - cbn. rewrite Hrows, !map_map. reflexivity.
  - exact Hsub.
  - exact Hcols.
Qed.

(** X13, a run: [lp_unit] written at ten times the scale, at the point 2. *)
Lemma infeasibility_scale_invariant_witness :
  infeasibility (1/100) (scale_rows 10 lp_unit) [2] = infeasibility (1/100) lp_unit [2].
Proof.
  apply (infeasibility_scale_invariant (1/100) 10 lp_unit [0] [1] [2]);
    try solve [lra | reflexivity].
  intros i li r ui Hl Hr Hu. destruct i as [|i].
  - cbn in Hl, Hr, Hu. inversion Hl; inversion Hr; inversion Hu; subst. cbn.
    split.
    + right. replace (Rmax (1 * 2 + 0 - 1) 0) with 1
        by (unfold Rmax; destruct (Rle_dec _ _); lra). lra.
    + left. unfold Rmax; destruct (Rle_dec _ _); lra.
  - cbn in Hl. now destruct i.
Defined.

(** ** Runs of the further properties *)

(** X8, a run: the entry 2 on the two rows of [mip_two_rows]. *)
Lemma check_int_vars_outcome_witness :
  (Strategy.int_vars (strategy_two [0%Z; 0%Z]) = [] /\
   check_int_vars mip_two_rows (strategy_two [0%Z; 0%Z]) = throw ValueError) \/
  (Strategy.int_vars (strategy_two [0%Z; 0%Z]) <> [] /\
   Forall (accepted_int_var (np_len (ProblemData.l mip_two_rows)))
     (Strategy.int_vars (strategy_two [0%Z; 0%Z])) /\
   check_int_vars mip_two_rows (strategy_two [0%Z; 0%Z]) = inr tt) \/
  (Strategy.int_vars (strategy_two [0%Z; 0%Z]) <> [] /\
   ~ Forall (accepted_int_var (np_len (ProblemData.l mip_two_rows)))
       (Strategy.int_vars (strategy_two [0%Z; 0%Z])) /\
   check_int_vars mip_two_rows (strategy_two [0%Z; 0%Z]) = throw AssertionError).
Proof.
  apply (check_int_vars_outcome mip_two_rows (strategy_two [0%Z; 0%Z])).
  reflexivity.
Defined.

(** X9, a run: [mip_one] with the strategy [solve] returned for it. *)
Lemma solve_with_strategy_raises_on_mip_witness :
  solve_with_strategy sp_optimal solver_row_aligned cross_check_completes mip_one
    (Strategy.Build [1] [1%Z; 1%Z]) = throw ValueError \/
  solve_with_strategy sp_optimal solver_row_aligned cross_check_completes mip_one
    (Strategy.Build [1] [1%Z; 1%Z]) = throw AssertionError \/
  solve_with_strategy sp_optimal solver_row_aligned cross_check_completes mip_one
    (Strategy.Build [1] [1%Z; 1%Z]) = throw TypeError.
Proof.
  apply (solve_with_strategy_raises_on_mip sp_optimal solver_row_aligned
           cross_check_completes mip_one (Strategy.Build [1] [1%Z; 1%Z])).
  reflexivity.
Defined.

(** X14, a run: [mip_one]. *)
Lemma solve_mip_active_constraints_length_witness :
  length (Strategy.active_constraints (Strategy.Build [1] [1%Z; 1%Z]))
  = (length (sp_rows (ProblemData.A mip_one)) + length (ProblemData.int_idx mip_one))%nat.
Proof.
  apply (solve_mip_active_constraints_length sp_optimal solver_row_aligned
           cross_check_completes mip_one [1] 0 (Strategy.Build [1] [1%Z; 1%Z])).
  - intros d. cbn. now rewrite length_map.
  - reflexivity.
  - reflexivity.
Defined.

(** X10, a run: [lp_unit] with the all-slack strategy. *)
Lemma solve_with_strategy_raises_on_continuous_witness :
  solve_with_strategy sp_optimal solver_row_aligned cross_check_completes lp_unit
    (Strategy.Build [] [0%Z])
  = if subscriptable (sp_format_of (ProblemData.A lp_unit))
    then throw IndexError else throw TypeError.
Proof.
  apply (solve_with_strategy_raises_on_continuous sp_optimal solver_row_aligned
           cross_check_completes lp_unit (Strategy.Build [] [0%Z])).
  reflexivity.
Defined.
